(** * RAG-Sphere: a shallow embedding of the indexing and retrieval core

    The development follows the Python sources under [raglib/]:
    - [utils/file_parsers/pdfParser.py]      (module [PdfPredictor])

    Python [int]s are modelled by [Z], byte strings by lists of [Z] in
    [0, 256), Python exceptions by an explicit error type. *)

From Stdlib Require Import ZArith QArith Qminmax Lqa List Lia Bool.
From Stdlib Require Import Strings.String Strings.Ascii.
From stdpp Require Import base list strings gmap pretty.
Import ListNotations.

Set Warnings "-register-all".

Local Open Scope string_scope.
Local Open Scope list_scope.
Local Open Scope Z_scope.

(** ** Python exceptions that the modelled code can raise *)

Inductive pyerr : Type :=
| NotImplementedError
| IndexError
| ValueError
| TypeError
| AttributeError
| KeyError
| StopIteration
| ZeroDivisionError
| UnboundLocalError.

Inductive result (A : Type) : Type :=
| Ok (a : A)
| Raise (e : pyerr).
Arguments Ok {A} a.
Arguments Raise {A} e.

#[global] Instance result_ret : MRet result := fun _ a => Ok a.
#[global] Instance result_bind : MBind result := fun _ _ k r =>
  match r with
  | Ok a => k a
  | Raise e => Raise e
  end.

(** ** Python values and string methods used by the sources *)

Module Py.

(** The values [eval] can return from an LLM response. *)
Inductive pyval : Type :=
| PNone
| PBool (b : bool)
| PInt (z : Z)
| PFloat (q : Q)
| PStr (s : string)
| PList (l : list pyval)
| PDict (d : list (pyval * pyval)).

Definition is_dict (v : pyval) : bool :=
  match v with PDict _ => true | _ => false end.

Definition is_list (v : pyval) : bool :=
  match v with PList _ => true | _ => false end.

(** Truth value testing ([bool(v)]). *)
Definition truthy (v : pyval) : bool :=
  match v with
  | PNone => false
  | PBool b => b
  | PInt z => negb (z =? 0)
  | PFloat q => negb (Qeq_bool q 0)
  | PStr s => negb (String.eqb s "")
  | PList l => match l with [] => false | _ => true end
  | PDict d => match d with [] => false | _ => true end
  end.

(** [key in d] and [d[key]] for a string key. *)
Fixpoint dict_get (d : list (pyval * pyval)) (key : string) : option pyval :=
  match d with
  | [] => None
  | (PStr k, v) :: rest => if String.eqb k key then Some v else dict_get rest key
  | _ :: rest => dict_get rest key
  end.

(** [str.isspace] on code points below 256. *)
Definition is_space (a : ascii) : bool :=
  let n := nat_of_ascii a in
  ((9 <=? n) && (n <=? 13) || (28 <=? n) && (n <=? 32)
   || (n =? 133) || (n =? 160))%nat.

Fixpoint lstrip (s : string) : string :=
  match s with
  | String a rest => if is_space a then lstrip rest else s
  | EmptyString => EmptyString
  end.

Fixpoint rstrip (s : string) : string :=
  match s with
  | EmptyString => EmptyString
  | String a rest =>
      match rstrip rest with
      | EmptyString => if is_space a then EmptyString else String a EmptyString
      | rest' => String a rest'
      end
  end.

(** [s.strip()] *)
Definition strip (s : string) : string := rstrip (lstrip s).

(** [s[n:]] for [0 <= n]. *)
Fixpoint drop_str (n : nat) (s : string) : string :=
  match n, s with
  | O, _ => s
  | S n', String _ rest => drop_str n' rest
  | S _, EmptyString => EmptyString
  end.

(** [s.startswith(p)] *)
Definition startswith (s p : string) : bool := String.prefix p s.

(** [s.split(sep)] for a non-empty [sep]: [skip] counts the characters of
    a separator still to be passed over, [cur] is the piece being read
    (reversed). *)
Fixpoint split_aux (sep : string) (skip : nat) (cur : string) (s : string)
  : list string :=
  match s with
  | EmptyString => [String.rev cur]
  | String a rest =>
      match skip with
      | S k => split_aux sep k cur rest
      | O =>
          if String.prefix sep s
          then String.rev cur :: split_aux sep (String.length sep - 1) "" rest
          else split_aux sep O (String a cur) rest
      end
  end.

Definition split (s sep : string) : list string := split_aux sep 0 "" s.

(** [s.replace(" ", "_")] and the like, for single characters. *)
Fixpoint replace_char (a b : ascii) (s : string) : string :=
  match s with
  | EmptyString => EmptyString
  | String c rest =>
      String (if Ascii.eqb c a then b else c) (replace_char a b rest)
  end.

(** [s.find(c)] and [s.rfind(c)] for a single character, [-1] if absent. *)
Fixpoint find_from (i : Z) (c : ascii) (s : string) : Z :=
  match s with
  | EmptyString => -1
  | String a rest => if Ascii.eqb a c then i else find_from (i + 1) c rest
  end.

Definition find (s : string) (c : ascii) : Z := find_from 0 c s.

Fixpoint rfind_from (i : Z) (c : ascii) (s : string) : Z :=
  match s with
  | EmptyString => -1
  | String a rest =>
      let r := rfind_from (i + 1) c rest in
      if r =? -1 then (if Ascii.eqb a c then i else -1) else r
  end.

Definition rfind (s : string) (c : ascii) : Z := rfind_from 0 c s.

(** [s[start:stop]] with Python's treatment of negative and oversized
    bounds. *)
Definition slice (s : string) (start stop : Z) : string :=
  let n := Z.of_nat (String.length s) in
  let norm i := if i <? 0 then Z.max 0 (i + n) else Z.min i n in
  let a := norm start in
  let b := norm stop in
  String.substring (Z.to_nat a) (Z.to_nat (b - a)) s.

(** [x < y] on numbers read as rationals. *)
Definition Qltb (x y : Q) : bool := negb (Qle_bool y x).

(** [sub in s] for strings. *)
Definition contains (s sub : string) : bool :=
  match String.index 0 sub s with Some _ => true | None => false end.

(** [s.split(sep, maxsplit = 1)] when [sep] occurs in [s]. *)
Definition split_once (s sep : string) : option (string * string) :=
  match String.index 0 sep s with
  | Some i =>
      Some (String.substring 0 i s, drop_str (i + String.length sep) s)
  | None => None
  end.

(** [s.strip(chars)] *)
Fixpoint lstrip_chars (chars : list ascii) (s : string) : string :=
  match s with
  | String a rest =>
      if existsb (Ascii.eqb a) chars then lstrip_chars chars rest else s
  | EmptyString => EmptyString
  end.

Fixpoint rstrip_chars (chars : list ascii) (s : string) : string :=
  match s with
  | EmptyString => EmptyString
  | String a rest =>
      match rstrip_chars chars rest with
      | EmptyString =>
          if existsb (Ascii.eqb a) chars then EmptyString
          else String a EmptyString
      | rest' => String a rest'
      end
  end.

Definition strip_chars (chars : list ascii) (s : string) : string :=
  rstrip_chars chars (lstrip_chars chars s).

(** [len(v)] *)
Definition py_len (v : pyval) : result Z :=
  match v with
  | PStr s => Ok (Z.of_nat (String.length s))
  | PList l => Ok (Z.of_nat (length l))
  | PDict d => Ok (Z.of_nat (length d))
  | _ => Raise TypeError
  end.

(** [v.strip()] *)
Definition py_strip (v : pyval) : result string :=
  match v with
  | PStr s => Ok (strip s)
  | _ => Raise AttributeError
  end.

End Py.

(** ** [pdfParser.predictor] and [pdfParser._flate_decode] *)

Module PdfPredictor.

Definition bytes := list Z.

(** [bytes(n)]: [n] zero bytes. *)
Definition zero_bytes (n : nat) : bytes := repeat 0 n.

(** [range(0, stop, step)] for a positive [step]. *)
Definition range_step (stop step : nat) : list nat :=
  map (fun k => (k * step)%nat) (seq 0 ((stop + step - 1) / step)%nat).

(** [data[i + 1 : i + columns + 1]] *)
Definition slice_row (data : bytes) (i columns : nat) : bytes :=
  take columns (drop (S i) data).

(** The row table built by
    [for i in range(0, len(data), columns + 1):
         data_rows.append((data[i], bytearray(data[i + 1 : i + columns + 1])))]. *)
Definition data_rows (data : bytes) (columns : nat) : list (Z * bytes) :=
  map (fun i => (nth i data 0, slice_row data i columns))
      (range_step (length data) (S columns)).

(** [data_rows.pop()]: drops the last row, [IndexError] on an empty list. *)
Definition pop_last {A} (l : list A) : result (list A) :=
  match l with
  | [] => Raise IndexError
  | _ => Ok (removelast l)
  end.

(** Predictor 11: [prior] is updated but the byte appended is [value]. *)
Fixpoint sub_line (prior : Z) (line : bytes) : bytes :=
  match line with
  | [] => []
  | value :: rest =>
      let prior' := (prior + value) mod 256 in
      value :: sub_line prior' rest
  end.

(** Predictor 12, one row: [up[i] = (up[i] + line[i]) % 256] for
    [i in range(columns)]; [line[i]] raises [IndexError] on a short row. *)
Fixpoint up_line (columns : nat) (up line : bytes) : result bytes :=
  match columns with
  | O => Ok []
  | S c =>
      match up, line with
      | u :: up', x :: line' =>
          rest ← up_line c up' line';
          Ok ((u + x) mod 256 :: rest)
      | _, _ => Raise IndexError
      end
  end.

(** Predictor 13, one row:
    [up[i] = (line[i] + (prior + up[i]) // 2) % 256; prior = up[i]]. *)
Fixpoint avg_line (columns : nat) (prior : Z) (up line : bytes) : result bytes :=
  match columns with
  | O => Ok []
  | S c =>
      match up, line with
      | u :: up', x :: line' =>
          let v := (x + (prior + u) / 2) mod 256 in
          rest ← avg_line c v up' line';
          Ok (v :: rest)
      | _, _ => Raise IndexError
      end
  end.

(** The loop [for _, line in data_rows] with the running [up] row;
    each decoded row is appended to the output and becomes [up]. *)
Fixpoint fold_rows (step : bytes -> bytes -> result bytes)
         (up : bytes) (rows : list (Z * bytes)) : result bytes :=
  match rows with
  | [] => Ok []
  | (_, line) :: rest =>
      up' ← step up line;
      out ← fold_rows step up' rest;
      Ok (up' ++ out)
  end.

Definition predictor (data : bytes) (pred colors bits : Z) (columns : Z)
  : result bytes :=
  if negb (colors =? 1) then Raise NotImplementedError
  else if negb (bits =? 8) then Raise NotImplementedError
  else if pred =? 1 then Ok data
  else if pred =? 2 then Raise NotImplementedError
  else if columns <? 0 then Raise ValueError
  else
    let c := Z.to_nat columns in
    let data := data ++ zero_bytes c in
    rows ← pop_last (data_rows data c);
    if pred =? 10 then Ok (concat (map snd rows))
    else if pred =? 11 then Ok (concat (map (fun r => sub_line 0 (snd r)) rows))
    else if pred =? 12 then fold_rows (up_line c) (zero_bytes c) rows
    else if pred =? 13 then fold_rows (avg_line c 0) (zero_bytes c) rows
    else Raise NotImplementedError.

(** [_flate_decode] after [zlib.decompress]: [parms] is the
    [/DecodeParms] dictionary, [None] when the stream has none; absent
    keys take the defaults of [parms.get]. *)
Record decode_parms := {
  Predictor : option Z;
  Colors : option Z;
  BitsPerComponent : option Z;
  Columns : option Z
}.

Definition _flate_decode (decompress : bytes -> result bytes)
           (stream : bytes) (parms : option decode_parms) : result bytes :=
  stream ← decompress stream;
  match parms with
  | None => Ok stream
  | Some p =>
      predictor stream (default 1 (Predictor p)) (default 1 (Colors p))
                (default 8 (BitsPerComponent p)) (default 1 (Columns p))
  end.

End PdfPredictor.


(** ** [graphrag/query/graphRAG_retriever.py] *)

Module Retriever.
Import Py.

Inductive AllowedTypes : Type := NONE | UNKNOWN | TEXT.

Record RetrievalAnswer : Type := {
  name : string;
  category : string;
  path : string;
  type : AllowedTypes;
  matchedContent : string;
  surroundingContent : list string;
  links : list string
}.

Definition CATEGORY : string :=
  "extracted data from multiple different files (sources)".

(** The record returned when [len(results) == 0]. *)
Definition no_documents_found : RetrievalAnswer :=
  {| name := "NO DOCUMENTS FOUND"; category := CATEGORY; path := "";
     type := NONE; matchedContent := ""; surroundingContent := [];
     links := [] |}.

Definition or_no_documents (results : list RetrievalAnswer)
  : list RetrievalAnswer :=
  match results with
  | [] => [no_documents_found]
  | _ => results
  end.

(** [sorted(l, key = key, reverse = True)]: stable, descending. *)
Fixpoint insert_desc {A K} (ltb : K -> K -> bool) (key : A -> K)
         (x : A) (s : list A) : list A :=
  match s with
  | [] => [x]
  | y :: s' =>
      if ltb (key x) (key y) then y :: insert_desc ltb key x s' else x :: s
  end.

Definition sorted_desc {A K} (ltb : K -> K -> bool) (key : A -> K)
           (l : list A) : list A :=
  fold_right (insert_desc ltb key) [] l.

(** [max_matches = 10 if max_matches is None else max(1, max_matches)] *)
Definition clamp_max_matches (m : option Z) : Z :=
  match m with None => 10 | Some m => Z.max 1 m end.

(** [0.04 if confidence_cutoff is None else max(0, min(1, confidence_cutoff))] *)
Definition clamp_cutoff (c : option Q) : Q :=
  match c with None => 4 # 100 | Some c => Qmax 0 (Qmin 1 c) end.

(** A kNN hit of the vector store; the [_source] fields hold the already
    evaluated dictionaries ([eval(community["_source"][...])]). *)
Record vector_hit : Type := {
  _score : Q;
  hit_content : string;
  hit_source : list (string * Z);
  hit_document : list (string * Z);
  hit_source_ref : list (string * Z)
}.

(** A [File] vertex of the graph store. *)
Record file_node : Type := {
  file_content : string;
  file_source : list (string * Z);
  file_document : list (string * Z)
}.

(** A [CommunityNode] vertex of the graph store. *)
Record community_node : Type := {
  com_content : string;
  com_source : list (string * Z);
  com_document : list (string * Z)
}.

Section Strategies.

(** [list(keys).__repr__()] *)
Variable repr_keys : list string -> string.

(** [vector_db.search(index, knn = {k, num_candidates, ...})["hits"]["hits"]] *)
Variable knn_search : Z -> Q -> list vector_hit.

(** [graph_db.get_aql("FOR v IN File FILTER v._key == ... LIMIT 1 RETURN v")]:
    the first match, if any. *)
Variable file_by_key : string -> option file_node.

(** [llm.generate] for an information block, by attempt number. *)
Variable llm_generate : string -> nat -> string.

(** [eval] of a response; [None] when it raises. *)
Variable py_eval : string -> option pyval.

Definition text_answer (h : vector_hit) : RetrievalAnswer :=
  {| name := repr_keys (map fst (hit_source h)); category := CATEGORY;
     path := repr_keys (map fst (hit_document h)); type := TEXT;
     matchedContent := hit_content h; surroundingContent := []; links := [] |}.

(** [for community in sorted(...): if community["_score"] < cutoff: break;
     results.append(...)] *)
Fixpoint collect_above (cutoff : Q) (hits : list vector_hit)
  : list RetrievalAnswer :=
  match hits with
  | [] => []
  | h :: rest =>
      if Qltb (_score h) cutoff then []
      else text_answer h :: collect_above cutoff rest
  end.

Definition _naive_graph_rag_retrieve (max_matches : option Z)
           (confidence_cutoff : option Q) : list RetrievalAnswer :=
  let max_matches := clamp_max_matches max_matches in
  let confidence_cutoff := clamp_cutoff confidence_cutoff in
  let communities :=
    knn_search max_matches (Qmax 64 ((15 # 10) * inject_Z max_matches)) in
  or_no_documents
    (collect_above confidence_cutoff (sorted_desc Qltb _score communities)).

Definition _naive_rag_retrieve (max_matches : option Z)
           (confidence_cutoff : option Q) : list RetrievalAnswer :=
  let max_matches := clamp_max_matches max_matches in
  let confidence_cutoff := clamp_cutoff confidence_cutoff in
  let communities :=
    knn_search max_matches (Qmax 64 ((15 # 10) * inject_Z max_matches)) in
  or_no_documents
    (collect_above confidence_cutoff (sorted_desc Qltb _score communities)).

(** *** GARAG *)

(** [source_refs[source] = source_refs.get(source, 0) + v] on an
    insertion-ordered dictionary. *)
Fixpoint dict_add (source : string) (v : Q) (d : list (string * Q))
  : list (string * Q) :=
  match d with
  | [] => [(source, (0 + v)%Q)]
  | (k, old) :: rest =>
      if String.eqb k source then (k, (old + v)%Q) :: rest
      else (k, old) :: dict_add source v rest
  end.

Fixpoint lookup_count (d : list (string * Z)) (key : string) : option Z :=
  match d with
  | [] => None
  | (k, v) :: rest => if String.eqb k key then Some v else lookup_count rest key
  end.

(** [community["_score"] * count / source_ref["_total"]] *)
Definition contribution (score : Q) (count total : Z) : Q :=
  (score * inject_Z count / inject_Z total)%Q.

(** The inner loop [for source, count in source_ref.items()]. *)
Fixpoint add_sources (score : Q) (source_ref items : list (string * Z))
         (source_refs : list (string * Q)) : result (list (string * Q)) :=
  match items with
  | [] => Ok source_refs
  | (source, count) :: rest =>
      if String.eqb source "_total" then
        add_sources score source_ref rest source_refs
      else
        match lookup_count source_ref "_total" with
        | None => Raise KeyError
        | Some total =>
            if total =? 0 then Raise ZeroDivisionError
            else add_sources score source_ref rest
                   (dict_add source (contribution score count total) source_refs)
        end
  end.

(** The loop [for community in valid_communities["hits"]["hits"]]. *)
Fixpoint accumulate (cutoff : Q) (hits : list vector_hit)
         (source_refs : list (string * Q)) : result (list (string * Q)) :=
  match hits with
  | [] => Ok source_refs
  | h :: rest =>
      if Qltb (_score h) cutoff then accumulate cutoff rest source_refs
      else
        source_refs ← add_sources (_score h) (hit_source_ref h)
                                  (hit_source_ref h) source_refs;
        accumulate cutoff rest source_refs
  end.

Definition file_answer (f : file_node) : RetrievalAnswer :=
  {| name := repr_keys (map fst (file_source f)); category := CATEGORY;
     path := repr_keys (map fst (file_document f)); type := TEXT;
     matchedContent := file_content f; surroundingContent := []; links := [] |}.

(** The loop over the sorted accumulator, at most [max_matches] rounds. *)
Fixpoint fetch_files (refs : list (string * Q)) (max_matches : Z)
  : result (list RetrievalAnswer) :=
  match refs with
  | [] => Ok []
  | (source_ref, _) :: rest =>
      match file_by_key source_ref with
      | None => Raise StopIteration
      | Some file_node =>
          let max_matches := max_matches - 1 in
          if max_matches =? 0 then Ok [file_answer file_node]
          else
            more ← fetch_files rest max_matches;
            Ok (file_answer file_node :: more)
      end
  end.

Definition _garag_retrieve (max_matches : option Z)
           (confidence_cutoff : option Q) : result (list RetrievalAnswer) :=
  let max_matches := clamp_max_matches max_matches in
  let confidence_cutoff := clamp_cutoff confidence_cutoff in
  let valid_communities :=
    knn_search (max_matches * 2) (inject_Z (Z.max 128 (3 * max_matches))) in
  source_refs ← accumulate confidence_cutoff valid_communities [];
  results ← fetch_files (sorted_desc Qltb snd source_refs) max_matches;
  Ok (or_no_documents results).

(** *** GraphRAG *)

(** [graph_db.get_aql("FOR v IN CommunityNode FILTER v.community_degree == d
    && v.is_copy == false && v.is_leaf == false RETURN v")] *)
Variable communities_of_degree : Z -> list community_node.

(** [random.shuffle] *)
Variable shuffle : list community_node -> list community_node.

(** One information block: text, source names, document names. *)
Definition block : Type := string * list string * list string.

Record stitch_state : Type := {
  informations : list block;
  current_source : list string;
  current_document : list string;
  current_len : Z;
  current_information : string
}.

Definition str_len (s : string) : Z := Z.of_nat (String.length s).

(** One round of [while communities: community = communities.pop() ...]. *)
Definition stitch_step (st : stitch_state) (community : community_node)
  : stitch_state :=
  let len := current_len st + (str_len (com_content community) + 1) in
  if 4096 <=? len then
    {| informations :=
         informations st
         ++ [(current_information st, current_source st, current_document st)];
       current_source := map fst (com_source community);
       current_document := map fst (com_document community);
       current_len := str_len (com_content community);
       current_information := com_content community |}
  else
    {| informations := informations st;
       current_source :=
         list_union (current_source st) (map fst (com_source community));
       current_document :=
         list_union (current_document st) (map fst (com_document community));
       current_len := len;
       current_information :=
         current_information st +:+ String "010" (com_content community) |}.

Definition stitch (communities : list community_node) : list block :=
  let st := fold_left stitch_step (rev communities)
              {| informations := []; current_source := [];
                 current_document := []; current_len := 0;
                 current_information := "" |} in
  informations st
  ++ [(current_information st, current_source st, current_document st)].

(** The checks made on one LLM response; [None] stands for [continue]. *)
Definition valid_information (response : string) : option (Z * string) :=
  let ai_info :=
    slice response (find response "{") (rfind response "}" + 1) in
  match py_eval ai_info with
  | Some (PDict d) =>
      match dict_get d "confidence", dict_get d "information" with
      | Some confidence, Some (PStr information) =>
          match confidence with
          | PInt c => Some (c, information)
          | _ => None
          end
      | _, _ => None
      end
  | _ => None
  end.

(** [for _ in range(n)] of [generate_community_information]; the first
    component counts the calls made to the LLM. *)
Fixpoint information_attempts (n attempt : nat) (information : string)
  : nat * option (Z * string) :=
  match n with
  | O => (attempt, None)
  | S n' =>
      match valid_information (llm_generate information attempt) with
      | Some r => (S attempt, Some r)
      | None => information_attempts n' (S attempt) information
      end
  end.

Definition generate_community_information (b : block)
  : nat * (Z * string * list string * list string) :=
  let '(information, source, document) := b in
  match information_attempts 10 0 information with
  | (calls, Some (confidence, text)) =>
      (calls, (confidence, strip text, source, document))
  | (calls, None) => (calls, (0, "", [], []))
  end.

Definition info_answer (i : Z * string * list string * list string)
  : RetrievalAnswer :=
  let '(_, information, source, document) := i in
  {| name := repr_keys source; category := CATEGORY;
     path := repr_keys document; type := TEXT;
     matchedContent := information; surroundingContent := []; links := [] |}.

(** The loop over the informations sorted by confidence. *)
Fixpoint rank (cutoff max_matches : Z)
         (infos : list (Z * string * list string * list string))
         (results : list RetrievalAnswer) : list RetrievalAnswer :=
  match infos with
  | [] => results
  | i :: rest =>
      if i.1.1.1 <? cutoff then results
      else rank cutoff max_matches rest
             (if Z.of_nat (length results) <? max_matches
              then results ++ [info_answer i] else results)
  end.

Definition _graph_rag_retrieve (max_matches community_degree
                                confidence_cutoff : option Z)
  : list RetrievalAnswer :=
  let max_matches := clamp_max_matches max_matches in
  let community_degree :=
    match community_degree with None => 1 | Some d => Z.max 0 d end in
  let confidence_cutoff :=
    match confidence_cutoff with
    | None => 40
    | Some c => Z.max 0 (Z.min 100 c)
    end in
  let communities :=
    flat_map (fun degree => communities_of_degree (Z.of_nat degree))
             (seq 0 (Z.to_nat (community_degree + 1))) in
  let informations := stitch (shuffle communities) in
  let informations :=
    map (fun b => snd (generate_community_information b)) informations in
  or_no_documents
    (rank confidence_cutoff max_matches
          (sorted_desc Z.ltb (fun i => i.1.1.1) informations) []).

End Strategies.

End Retriever.

(** ** [graphrag/index/KG_2_ConvertTextsToGraph.py] *)

Module KGBuilder.
Import Py.

(** A [Node] document: label and the three additive source maps. *)
Record node_doc : Type := {
  label : string;
  source : gmap string Z;
  source_ref : gmap string Z;
  document : gmap string Z
}.

(** The part of the graph store the builder writes.  A [Relation] edge is
    keyed by the keys of its end points and its label (its [_from] and
    [_to] are ["Node/" + key]); the value is its weight.  [is_graph] holds
    the flag of each [File] vertex. *)
Record arango : Type := {
  Node : gmap string node_doc;
  Relation : gmap (string * string * string) Z;
  is_graph : gmap string bool
}.

Definition empty_db : arango :=
  {| Node := ∅; Relation := ∅; is_graph := ∅ |}.

(** [_update_source_dict]: [origin[k] = origin.get(k, 0) + count]. *)
Definition _update_source_dict (origin src : gmap string Z) : gmap string Z :=
  map_fold (fun k count origin => <[k := default 0 (origin !! k) + count]> origin)
           origin src.

(** The characters kept by the [re.sub] of [_insert_relations]: letters,
    digits and the punctuation listed in its negated class (the last one
    is the double quote). *)
Definition allowed_char (a : ascii) : bool :=
  let n := nat_of_ascii a in
  ((65 <=? n) && (n <=? 90) || (97 <=? n) && (n <=? 122)
   || (48 <=? n) && (n <=? 57))%nat
  || existsb (Ascii.eqb a)
       ["_"; "-"; "."; "@"; "("; ")"; "+"; "="; ";"; "$"; "!"; "*"; "%";
        ":"; ","; "}"; "{"; "]"; "["; "034"]%char.

Fixpoint filter_str (keep : ascii -> bool) (s : string) : string :=
  match s with
  | EmptyString => EmptyString
  | String a rest =>
      if keep a then String a (filter_str keep rest) else filter_str keep rest
  end.

(** [sub(..., '', s.replace(' ', '_'))] *)
Definition clean (s : string) : string :=
  filter_str allowed_char (replace_char " " "_" s).

Section Builder.

(** Whether the store accepts a document key; a rejected [add_vertex]
    raises inside the [try] block. *)
Variable key_accepted : string -> bool.

(** [llm.generate] for a chunk, by attempt number. *)
Variable llm_generate : string -> nat -> string.

(** [_try_get_relations], which evaluates the response with [eval];
    [PNone] when it gives up. *)
Variable _try_get_relations : string -> pyval.

(** Look a node up and add it or merge the source maps into it. *)
Definition upsert_node (db : arango) (key : string)
           (src_ref src doc : gmap string Z) : option arango :=
  match Node db !! key with
  | None =>
      if key_accepted key then
        Some {| Node := <[key := {| label := replace_char "_" " " key;
                                    source := src; source_ref := src_ref;
                                    document := doc |}]> (Node db);
                Relation := Relation db; is_graph := is_graph db |}
      else None
  | Some node =>
      Some {| Node := <[key := {| label := label node;
                                  source := _update_source_dict (source node) src;
                                  source_ref :=
                                    _update_source_dict (source_ref node) src_ref;
                                  document :=
                                    _update_source_dict (document node) doc |}]>
                        (Node db);
              Relation := Relation db; is_graph := is_graph db |}
  end.

(** Add the edge with weight 1 or increase its weight. *)
Definition upsert_edge (db : arango) (from to rel : string) : arango :=
  {| Node := Node db;
     Relation :=
       match Relation db !! (from, to, rel) with
       | None => <[(from, to, rel) := 1]> (Relation db)
       | Some weight => <[(from, to, rel) := weight + 1]> (Relation db)
       end;
     is_graph := is_graph db |}.

(** The [try] block of [_insert_relations]; an exception leaves what was
    written before it. *)
Definition persist (db : arango) (from to rel : string)
           (src_ref src doc : gmap string Z) : arango :=
  match upsert_node db from src_ref src doc with
  | None => db
  | Some db1 =>
      match upsert_node db1 to src_ref src doc with
      | None => db1
      | Some db2 => upsert_edge db2 from to rel
      end
  end.

(** [relation[field].replace(' ', '_')] needs a [str]. *)
Definition clean_field (v : pyval) : result string :=
  match v with
  | PStr s => Ok (clean s)
  | _ => Raise AttributeError
  end.

Definition str_empty (s : string) : bool :=
  match s with EmptyString => true | _ => false end.

(** One round of [for relation in relations]. *)
Definition insert_relation (db : arango) (relation : pyval)
           (src_ref src doc : gmap string Z) : result arango :=
  match relation with
  | PDict d =>
      match dict_get d "From", dict_get d "To", dict_get d "Relation" with
      | Some f, Some t, Some r =>
          from ← clean_field f;
          to ← clean_field t;
          rel ← clean_field r;
          if str_empty from || str_empty to || str_empty rel then Ok db
          else if String.eqb from to then Ok db
          else Ok (persist db from to rel src_ref src doc)
      | _, _, _ => Ok db
      end
  | _ => Ok db
  end.

(** [_insert_relations]: the store as left behind, and the exception that
    ended the loop, if any. *)
Fixpoint _insert_relations (relations : list pyval)
         (src_ref src doc : gmap string Z) (db : arango)
  : arango * option pyerr :=
  match relations with
  | [] => (db, None)
  | relation :: rest =>
      match insert_relation db relation src_ref src doc with
      | Ok db' => _insert_relations rest src_ref src doc db'
      | Raise e => (db, Some e)
      end
  end.

(** [type(relations) == list and any(relations) and
     type(relations[0]) == dict] *)
Definition usable_relations (relations : pyval) : option (list pyval) :=
  match relations with
  | PList (first :: rest) =>
      if existsb truthy (first :: rest) && is_dict first
      then Some (first :: rest) else None
  | _ => None
  end.

(** [for _ in range(n)] of [generate_ner_results]; the first component
    counts the calls made to the LLM. *)
Fixpoint ner_attempts (n attempt : nat) (content : string)
  : nat * option (list pyval) :=
  match n with
  | O => (attempt, None)
  | S n' =>
      match usable_relations
              (_try_get_relations (llm_generate content attempt)) with
      | Some relations => (S attempt, Some relations)
      | None => ner_attempts n' (S attempt) content
      end
  end.

Definition mark_parsed (db : arango) (file_key : string) : arango :=
  {| Node := Node db; Relation := Relation db;
     is_graph := <[file_key := true]> (is_graph db) |}.

(** [generate_ner_results]: LLM calls made, the store, and the exception
    that escaped, if any. *)
Definition generate_ner_results (db : arango) (content file_key : string)
           (src doc : gmap string Z) : nat * arango * option pyerr :=
  match ner_attempts 8 0 content with
  | (calls, None) => (calls, mark_parsed db file_key, None)
  | (calls, Some relations) =>
      match _insert_relations relations
              (<["_total" := 1]> {[file_key := 1]}) src doc db with
      | (db', None) => (calls, mark_parsed db' file_key, None)
      | (db', Some e) => (calls, db', Some e)
      end
  end.

End Builder.

End KGBuilder.

(** ** [graphrag/index/KG_5_CreateCommunitySummaries.py]: the request
    loop of [sum_vertex] *)

Module Summariser.
Import Py.

(** What one round of [while True] does with a response. *)
Inductive round : Type :=
| Continue
| Break (label description : pyval)
| Throw (e : pyerr).

Definition quote : ascii := "034".
Definition description_key : string :=
  String quote ("description" +:+ String quote ":").
Definition label_key : string :=
  String quote ("label" +:+ String quote ":").

(** The [except] branch: read label and description off the raw text. *)
Definition read_anyway (ai_summary : string) : round :=
  match split_once ai_summary description_key with
  | None => Continue
  | Some (before, after) =>
      if contains before "}" || contains after "{" then Continue
      else
        match split_once before label_key with
        | None => Continue
        | Some (_, tail) =>
            Break (PStr (strip_chars [" "; ","; quote; "'"; "010"]%char tail))
                  (PStr (strip_chars [" "; quote; "'"; "}"; "010"]%char after))
        end
  end.

Definition is_str (s : string) (v : pyval) : bool :=
  match v with PStr x => String.eqb x s | _ => false end.

(** [key in ai_summary] for the evaluated response. *)
Definition py_in (key : string) (v : pyval) : result bool :=
  match v with
  | PDict d => Ok (match dict_get d key with Some _ => true | None => false end)
  | PList l => Ok (existsb (is_str key) l)
  | PStr s => Ok (contains s key)
  | _ => Raise TypeError
  end.

(** [ai_summary[key]] for a string key. *)
Definition py_item (v : pyval) (key : string) : result pyval :=
  match v with
  | PDict d =>
      match dict_get d key with Some x => Ok x | None => Raise KeyError end
  | _ => Raise TypeError
  end.

(** The checks after a successful [eval]. *)
Definition check_evaluated (ai_summary : pyval) : result round :=
  has_label ← py_in "label" ai_summary;
  if negb has_label then Ok Continue
  else
    has_description ← py_in "description" ai_summary;
    if negb has_description then Ok Continue
    else
      label ← py_item ai_summary "label";
      label_len ← py_len label;
      if label_len <? 5 then Ok Continue
      else
        description ← py_item ai_summary "description";
        description_len ← py_len description;
        if description_len <? 20 then Ok Continue
        else Ok (Break label description).

Section Request.

(** [llm_client.generate] for an excerpt, by attempt number. *)
Variable llm_generate : string -> nat -> string.

(** [eval] of a response; [None] when it raises. *)
Variable py_eval : string -> option pyval.

Definition one_round (response : string) : round :=
  match py_eval response with
  | None => read_anyway response
  | Some v =>
      match check_evaluated v with
      | Ok r => r
      | Raise e => Throw e
      end
  end.

(** [while True] unrolled [fuel] times: the number of LLM calls made and
    how the loop was left; [None] when it is still running. *)
Fixpoint request_summary (fuel attempt : nat) (summary : string)
  : nat * option round :=
  match fuel with
  | O => (attempt, None)
  | S fuel' =>
      match one_round (llm_generate summary attempt) with
      | Continue => request_summary fuel' (S attempt) summary
      | r => (S attempt, Some r)
      end
  end.

End Request.

End Summariser.

(** ** [utils/file_parsers/RAGSplit.py] *)

Module RAGSplit.
Import Py.

(** The maximum number of characters a body text may have *)
Definition _MAX_BODY_LEN : Z := 4096.

(** One element of [results]. *)
Record chunk : Type := {
  h1 : string;
  h2 : string;
  h3 : string;
  body : string;
  ref : list nat
}.

(** The loop variables of [split]. *)
Record state : Type := {
  cur_h1 : string;
  cur_h2 : string;
  cur_h3 : string;
  cur_body : string;
  pages : list nat;
  last : Z;
  results : list chunk
}.

Definition nonempty (s : string) : bool :=
  match s with EmptyString => false | _ => true end.

Definition str_len (s : string) : Z := Z.of_nat (String.length s).

Definition newlines : string := String "010" (String "010" "").

(** [results.append({h1, h2, h3, body, ref: list(pages)})] *)
Definition emit (st : state) : list chunk :=
  results st
  ++ [{| h1 := cur_h1 st; h2 := cur_h2 st; h3 := cur_h3 st;
         body := cur_body st; ref := pages st |}].

(** [pages |= {idx}] *)
Definition add_page (idx : nat) (pages : list nat) : list nat :=
  if bool_decide (idx ∈ pages) then pages else pages ++ [idx].

(** [old + " " + new if old else new] *)
Definition join_heading (old new : string) : string :=
  if nonempty old then old +:+ " " +:+ new else new.

(** One round of [for line in page_split] on page [idx]. *)
Definition feed (max_chunk_size : Z) (idx : nat) (st : state) (line : string)
  : state :=
  if startswith line "# " then
    if last st =? 1 then
      {| cur_h1 := join_heading (cur_h1 st) (strip (drop_str 2 line));
         cur_h2 := cur_h2 st; cur_h3 := cur_h3 st; cur_body := cur_body st;
         pages := pages st; last := last st; results := results st |}
    else
      {| cur_h1 := strip (drop_str 2 line);
         cur_h2 := ""; cur_h3 := ""; cur_body := "";
         pages := if last st =? 4 then [] else pages st;
         last := 1;
         results := if last st =? 4 then emit st else results st |}
  else if startswith line "## " then
    if last st =? 2 then
      {| cur_h1 := cur_h1 st;
         cur_h2 := join_heading (cur_h2 st) (strip (drop_str 3 line));
         cur_h3 := cur_h3 st; cur_body := cur_body st;
         pages := pages st; last := last st; results := results st |}
    else
      {| cur_h1 := cur_h1 st;
         cur_h2 := strip (drop_str 3 line);
         cur_h3 := ""; cur_body := "";
         pages := if last st =? 4 then [] else pages st;
         last := 2;
         results := if last st =? 4 then emit st else results st |}
  else if startswith line "### " then
    if last st =? 3 then
      {| cur_h1 := cur_h1 st; cur_h2 := cur_h2 st;
         cur_h3 := join_heading (cur_h3 st) (strip (drop_str 4 line));
         cur_body := cur_body st;
         pages := pages st; last := last st; results := results st |}
    else
      {| cur_h1 := cur_h1 st; cur_h2 := cur_h2 st;
         cur_h3 := strip (drop_str 4 line);
         cur_body := "";
         pages := if last st =? 4 then [] else pages st;
         last := 3;
         results := if last st =? 4 then emit st else results st |}
  else if last st =? 4 then
    let line := strip line in
    if nonempty (cur_body st)
       && (max_chunk_size <? str_len (cur_body st) + str_len line) then
      {| cur_h1 := cur_h1 st; cur_h2 := cur_h2 st; cur_h3 := cur_h3 st;
         cur_body := line;
         pages := add_page idx [idx];
         last := last st; results := emit st |}
    else
      {| cur_h1 := cur_h1 st; cur_h2 := cur_h2 st; cur_h3 := cur_h3 st;
         cur_body :=
           if nonempty (cur_body st)
           then cur_body st +:+ newlines +:+ line else line;
         pages := add_page idx (pages st);
         last := last st; results := results st |}
  else
    {| cur_h1 := cur_h1 st; cur_h2 := cur_h2 st; cur_h3 := cur_h3 st;
       cur_body := strip line;
       pages := add_page idx (pages st);
       last := 4; results := results st |}.

(** [for idx, page_split in enumerate(line_splits)] from page [idx] on. *)
Fixpoint feed_pages (max_chunk_size : Z) (idx : nat) (st : state)
         (data : list string) : state :=
  match data with
  | [] => st
  | page :: rest =>
      feed_pages max_chunk_size (S idx)
        (fold_left (feed max_chunk_size idx) (Py.split page newlines) st) rest
  end.

Definition initial : state :=
  {| cur_h1 := ""; cur_h2 := ""; cur_h3 := ""; cur_body := "";
     pages := []; last := 1; results := [] |}.

(** The chunks of [split(data, max_chunk_size)], before [Content] and
    [PageHint] are added to each. *)
Definition split (data : list string) (max_chunk_size : Z) : list chunk :=
  let st := feed_pages max_chunk_size 0 initial data in
  if last st =? 4 then emit st else results st.

(** [result[b'Content']] *)
Definition Content (c : chunk) : string :=
  (if nonempty (h1 c) then "# " +:+ h1 c +:+ newlines else "")
  +:+ (if nonempty (h2 c) then "## " +:+ h2 c +:+ newlines else "")
  +:+ (if nonempty (h3 c) then "### " +:+ h3 c +:+ newlines else "")
  +:+ body c.

(** [result[b'PageHint']]; [ref[0]] raises on an empty list. *)
Definition PageHint (c : chunk) : result string :=
  match ref c with
  | [] => Raise IndexError
  | [p] => Ok ("Page (" +:+ pretty (S p) +:+ ")")
  | first :: rest =>
      Ok ("Pages (" +:+ pretty (S first) +:+ "-"
          +:+ pretty (S (List.last rest first)) +:+ ")")
  end.

End RAGSplit.

(** ** [graphrag/index/KG_1_LoadData.py] and
    [utils/file_parsers/zipExtractor.py] *)

Module Loader.
Import Py.

(** What a [Path] points to; [suffix] is [file_path.suffix.lower()]. *)
Inductive path : Type :=
| File (name suffix : string)
| Dir (name : string) (entries : list path).

Definition path_name (p : path) : string :=
  match p with File n _ => n | Dir n _ => n end.

(** The objects that are passed around as arguments. *)
Inductive pyobj : Type :=
| NoneObj
| Config
| PathObj (p : path)
| ArangoClient
| ElasticTuple
| IntObj (z : Z)
| TemporaryDirectory.

(** [if obj:] *)
Definition is_true (obj : pyobj) : bool :=
  match obj with
  | NoneObj => false
  | IntObj z => negb (z =? 0)
  | _ => true
  end.

(** The two stores: the vertices of the [File] collection, each with the
    path it was read from and the chunk its fields are made of, and the
    documents of the Elasticsearch index under their [uuid4()] ids. *)
Record world : Type := {
  files : list (path * RAGSplit.chunk);
  index : list (nat * (path * RAGSplit.chunk));
  next_uuid : nat
}.

Definition _FILE_PARSERS : list string := [".docx"; ".md"; ".pdf"; ".txt"].

Section Load.

(** The parser chosen by suffix; [None] when it raises. *)
Variable parse : path -> option (list string).

(** [str(file_path.absolute())] *)
Variable absolute : path -> string.

(** [ZipFile(zip_file, 'r')] *)
Variable open_zip : path -> result unit.

(** The duplicate check pastes the path between single quotes into the
    text of the query, with only the backslashes escaped.  For a path
    that holds a quote the text is another query, and what it finds is
    left open. *)
Variable quoted_query : string -> world -> result bool.

(** [not arango_client.get_aql("FOR v IN File FILTER v.file_path == '{}'
    LIMIT 1 RETURN v".format(...)).empty()] *)
Definition file_present (file_path : path) (w : world) : result bool :=
  if contains (absolute file_path) "'" then
    quoted_query (absolute file_path) w
  else
    Ok (bool_decide (absolute file_path ∈ map (fun v => absolute v.1) (files w))).

(** [zip_ref.extractall(path)] turns [path] into a file-system path with
    [os.fspath], which raises [TypeError] for an object that is not
    path-like, such as a [TemporaryDirectory]. *)
Definition extractall (target : pyobj) : result unit :=
  match target with
  | PathObj _ => Ok ()
  | _ => Raise TypeError
  end.

(** The generator [extracted_zip] under [with ... as folder]: set-up,
    [yield tmp_path], the body, and [tmp_path.cleanup()], which runs only
    when the body returns.  The folder on disk is not part of the state:
    it is removed by [cleanup] or, when an exception skips that call, by
    the finalizer of the [TemporaryDirectory] object once it is
    released. *)
Definition extracted_zip (zip_file : path)
           (body : pyobj -> world -> world * result unit) (w : world)
  : world * result unit :=
  let tmp_path := TemporaryDirectory in
  match open_zip zip_file with
  | Raise e => (w, Raise e)
  | Ok _ =>
      match extractall tmp_path with
      | Raise e => (w, Raise e)
      | Ok _ => body tmp_path w
      end
  end.

(** [folder.iterdir()] *)
Definition iterdir (folder : pyobj) : result (list path) :=
  match folder with
  | PathObj (Dir _ entries) => Ok entries
  | PathObj (File _ _) => Raise ValueError
  | _ => Raise AttributeError
  end.

(** [for x in ...: call(x)], ended by the first exception. *)
Fixpoint for_each {A} (call : A -> world -> world * result unit)
         (l : list A) (w : world) : world * result unit :=
  match l with
  | [] => (w, Ok ())
  | x :: rest =>
      match call x w with
      | (w, Ok _) => for_each call rest w
      | (w, Raise e) => (w, Raise e)
      end
  end.

(** [arango_client.add_vertex("File", fields)] followed by the
    [update_vertex] that adds the reflective [source_ref]. *)
Definition add_file (file_path : path) (text_chunk : RAGSplit.chunk)
           (w : world) : world :=
  {| files := files w ++ [(file_path, text_chunk)];
     index := index w; next_uuid := next_uuid w |}.

(** [elastic_client.index(index = index_name, id = uuid4(), document =
    embedded)] *)
Definition index_chunk (file_path : path) (text_chunk : RAGSplit.chunk)
           (w : world) : world :=
  {| files := files w;
     index := index w ++ [(next_uuid w, (file_path, text_chunk))];
     next_uuid := S (next_uuid w) |}.

(** The body of [for text_chunk in data]. *)
Definition store_chunk (file_path : path) (arango_client elastic_tuple : pyobj)
           (text_chunk : RAGSplit.chunk) (w : world) : world * result unit :=
  let '(w, loaded) :=
    if is_true arango_client then
      match arango_client with
      | ArangoClient => (add_file file_path text_chunk w, Ok ())
      | _ => (w, Raise AttributeError)
      end
    else (w, Ok ()) in
  match loaded with
  | Raise e => (w, Raise e)
  | Ok _ =>
      if is_true elastic_tuple then
        match elastic_tuple with
        | ElasticTuple => (index_chunk file_path text_chunk w, Ok ())
        | _ => (w, Raise TypeError)
        end
      else (w, Ok ())
  end.

(** The check for the file already existing in the ArangoDB. *)
Definition already_loaded (file_path : path) (arango_client : pyobj)
           (w : world) : result bool :=
  if is_true arango_client then
    match arango_client with
    | ArangoClient => file_present file_path w
    | _ => Raise AttributeError
    end
  else Ok false.

(** [_load_file]: five positional parameters, no defaults.  The
    recursive calls are written as in the source, with three arguments.
    [fuel] bounds the depth of the recursion. *)
Fixpoint _load_file (fuel : nat) (args : list pyobj) (w : world)
  : world * result unit :=
  match fuel with
  | O => (w, Ok ())
  | S fuel' =>
      match args with
      | [config; PathObj file_path; arango_client; elastic_tuple;
         IntObj max_chunk_size] =>
          if startswith (path_name file_path) "~$" then (w, Ok ())
          else
            match file_path with
            | Dir _ entries =>
                for_each
                  (fun path =>
                     _load_file fuel' [PathObj path; arango_client; elastic_tuple])
                  entries w
            | File name suffix =>
                if String.eqb suffix ".zip" then
                  extracted_zip file_path
                    (fun folder w =>
                       match iterdir folder with
                       | Raise e => (w, Raise e)
                       | Ok paths =>
                           for_each
                             (fun path =>
                                _load_file fuel'
                                  [PathObj path; arango_client; elastic_tuple])
                             paths w
                       end) w
                else if bool_decide (suffix ∈ _FILE_PARSERS) then
                  match already_loaded file_path arango_client w with
                  | Raise e => (w, Raise e)
                  | Ok true => (w, Ok ())
                  | Ok false =>
                      match parse file_path with
                      | None => (w, Raise UnboundLocalError)
                      | Some data =>
                          for_each
                            (store_chunk file_path arango_client elastic_tuple)
                            (RAGSplit.split data max_chunk_size) w
                      end
                  end
                else (w, Ok ())
            end
      | [_; _; _; _; _] => (w, Raise AttributeError)
      | _ => (w, Raise TypeError)
      end
  end.

End Load.

End Loader.

(** ** [graphrag/index/G_LeidenAlgorithm.py] *)

Module Leiden.
Import Py.

(** A node is a vertex id of the store or, after aggregation, the tuple
    of the vertex ids it stands for.  Both are modelled by the list of
    ids, a vertex id by the list of length one. *)
Definition vertex : Type := list string.
Definition community : Type := list vertex.
Definition partition : Type := list community.

(** The graph dictionary: [vertices], [edges], [edge_connections]. *)
Record graph : Type := {
  vertices : list vertex;
  edges : gmap (vertex * vertex) Q;
  edge_connections : gset (vertex * vertex)
}.

(** [graph['edges'].get((node1, node2), 0)] *)
Definition weight (g : graph) (node1 node2 : vertex) : Q :=
  default 0%Q (edges g !! (node1, node2)).


(** The order of Python on strings and on tuples of strings. *)
Fixpoint tuple_compare (u v : vertex) : comparison :=
  match u, v with
  | [], [] => Eq
  | [], _ :: _ => Lt
  | _ :: _, [] => Gt
  | a :: u', b :: v' =>
      match String.compare a b with
      | Eq => tuple_compare u' v'
      | c => c
      end
  end.

(** [node1 > node2] *)
Definition gt (node1 node2 : vertex) : bool :=
  match tuple_compare node1 node2 with Gt => true | _ => false end.

(** [sum(f(x) for x in l)] *)
Definition Qsum {A} (f : A -> Q) (l : list A) : Q :=
  fold_right (fun x acc => (f x + acc)%Q) 0%Q l.

(** *** Sets as lists without duplicates *)

Definition set_remove (x : vertex) (s : community) : community :=
  filter (fun y => y <> x) s.

Definition set_add (x : vertex) (s : community) : community :=
  if bool_decide (x ∈ s) then s else s ++ [x].

Definition set_diff (s t : community) : community :=
  filter (fun y => y ∉ t) s.

Definition is_subset (s t : community) : bool :=
  forallb (fun y => bool_decide (y ∈ t)) s.

Definition is_empty {A} (s : list A) : bool :=
  match s with [] => true | _ => false end.

(** [partition.remove(c)] for a community [c] that is empty: the first
    element equal to the empty set goes. *)
Fixpoint remove_first_empty (p : partition) : partition :=
  match p with
  | [] => []
  | c :: rest => if is_empty c then rest else c :: remove_first_empty rest
  end.

(** *** Miscellaneous helper methods *)

(** [flatten] of a community: the vertex ids below it. *)
Definition flatten (c : community) : list string := concat c.

(** [get_len] of a node and of a community. *)
Definition node_len (v : vertex) : nat := length v.
Definition get_len (c : community) : nat := length (flatten c).

(** *** Graph helper methods *)

Definition count_connecting_edges_in (g : graph) (c : community) : Q :=
  Qsum (fun node1 =>
          Qsum (fun node2 =>
                  if gt node1 node2 then weight g node1 node2 else 0%Q) c) c.

Definition count_connecting_edges (g : graph) (community1 community2 : community)
  : Q :=
  Qsum (fun node1 => Qsum (fun node2 => weight g node1 node2) community2)
       community1.

(** The index of the first community that holds [node]; [None] stands for
    the fresh empty set the source returns. *)
Definition get_community_of_node (p : partition) (node : vertex) : option nat :=
  fst <$> list_find (fun c => node ∈ c) p.

Definition community_at (p : partition) (i : option nat) : community :=
  match i with
  | Some i => default [] (p !! i)
  | None => []
  end.

Definition get_graph_neighbors (g : graph) (node : vertex) : list vertex :=
  filter (fun neighbor => (node, neighbor) ∈ edge_connections g) (vertices g).

Definition singleton_partition (g : graph) : partition :=
  map (fun v => [v]) (vertices g).

(** *** Constant Potts model *)

(** [math.comb(n, 2)] *)
Definition comb2 (n : nat) : Z := Z.of_nat n * (Z.of_nat n - 1) / 2.

Definition Qnat (n : nat) : Q := inject_Z (Z.of_nat n).

Definition constant_potts_model (g : graph) (p : partition) (gamma : Q) : Q :=
  Qsum (fun c =>
          (count_connecting_edges_in g c
           - gamma * inject_Z (comb2 (get_len c)))%Q) p.

(** The local [comb(c, n)] of [delta_potts_model]:
    [0.5 * n * (1 - n) - n * c]. *)
Definition comb_delta (c n : Q) : Q := ((1 # 2) * n * (1 - n) - n * c)%Q.

Definition delta_potts_model (g : graph) (p : partition) (gamma : Q)
           (changing_node : vertex) (node_community changing_community : community)
  : Q :=
  if bool_decide (changing_node ∈ changing_community) then 0%Q
  else
    let single_community := [changing_node] in
    let node_length := Qnat (node_len changing_node) in
    let small_community := set_diff node_community single_community in
    (count_connecting_edges g changing_community single_community
     - count_connecting_edges g small_community single_community
     + gamma * (comb_delta (Qnat (get_len changing_community)) node_length
                - comb_delta (Qnat (get_len small_community)) node_length))%Q.

(** *** Local move *)

(** The community a node may move to: the fresh [set()] or a member of
    the partition, held by reference (its index). *)
Inductive target : Type :=
| Fresh
| Member (j : nat).

Definition target_set (p : partition) (t : target) : community :=
  match t with
  | Fresh => []
  | Member j => default [] (p !! j)
  end.

(** [for community in partition]: keep the first community with the
    greatest increase above [max_potts_value]. *)
Fixpoint scan_communities (g : graph) (p : partition) (gamma : Q)
         (node : vertex) (node_community : community)
         (j : nat) (rest : partition) (best : option target * Q)
  : option target * Q :=
  match rest with
  | [] => best
  | community :: rest' =>
      let potts_value :=
        delta_potts_model g p gamma node node_community community in
      scan_communities g p gamma node node_community (S j) rest'
        (if Qltb best.2 potts_value then (Some (Member j), potts_value)
         else best)
  end.

Definition best_move (g : graph) (p : partition) (gamma : Q)
           (node : vertex) (node_community : community) : option target * Q :=
  let potts_value := delta_potts_model g p gamma node node_community [] in
  scan_communities g p gamma node node_community 0 p
    (if Qltb 0 potts_value then (Some Fresh, potts_value) else (None, 0%Q)).

(** The mutation of [move_nodes] once a target is chosen: take the node
    out of its community [p[i]], drop that community if it is now empty,
    then add the node to the target if the target is non-empty and append
    a new singleton otherwise. *)
Definition apply_move (p : partition) (node : vertex) (i : nat) (t : target)
  : partition :=
  let node_community := set_remove node (default [] (p !! i)) in
  let p1 := <[i := node_community]> p in
  let drop_empty (q : partition) :=
    if is_empty node_community then remove_first_empty q else q in
  match t with
  | Member j =>
      let max_community := default [] (p1 !! j) in
      if is_empty max_community then drop_empty p1 ++ [[node]]
      else drop_empty (<[j := set_add node max_community]> p1)
  | Fresh => drop_empty p1 ++ [[node]]
  end.

(** What [max_community] holds after the mutation. *)
Definition target_after (p : partition) (node : vertex) (i : nat) (t : target)
  : community :=
  match t with
  | Fresh => []
  | Member j =>
      let max_community :=
        default [] (<[i := set_remove node (default [] (p !! i))]> p !! j) in
      if is_empty max_community then [] else set_add node max_community
  end.

(** One round of [while node_queue]: the partition and [next_queue]
    after [node] has been visited; [None] when [remove] raises. *)
Definition visit (g : graph) (gamma : Q) (node : vertex) (p : partition)
           (next_queue : list vertex) : option (partition * list vertex) :=
  let i := get_community_of_node p node in
  match best_move g p gamma node (community_at p i) with
  | (Some max_community, max_potts_value) =>
      if Qltb 0 max_potts_value then
        i ← i;
        let after := target_after p node i max_community in
        Some (apply_move p node i max_community,
              foldl (fun next neighbor =>
                       if bool_decide (neighbor ∈ after) then next
                       else set_add neighbor next)
                    next_queue (get_graph_neighbors g node))
      else Some (p, next_queue)
  | (None, _) => Some (p, next_queue)
  end.

(** [node_queue.pop()] *)
Definition pop {A} (l : list A) : option (A * list A) :=
  match reverse l with
  | [] => None
  | x :: rest => Some (x, reverse rest)
  end.

Section Randomised.

(** The state of the seeded generator, [random.shuffle] and
    [random.choices]: the latter is given the size of the population and
    the weights and answers with a position, or with [None] when it
    raises. *)
Variable rng : Type.
Variable shuffle : rng -> list vertex -> list vertex * rng.

Inductive prob : Type :=
| ExpMax
| Exp (x : Q)
| Zero.

Variable choices : rng -> nat -> list prob -> option nat * rng.

(** The two nested [while] loops of [move_nodes]; one unit of [fuel] is
    spent per node visited and per refill of the queue, and [None] is
    returned when it runs out (or when a set operation raises). *)
Fixpoint move_nodes_loop (fuel : nat) (g : graph) (gamma : Q)
         (node_queue next_queue : list vertex) (p : partition) (r : rng)
  : option (partition * rng) :=
  match fuel with
  | O => None
  | S fuel' =>
      match pop node_queue with
      | Some (node, node_queue') =>
          '(p', next_queue') ← visit g gamma node p next_queue;
          move_nodes_loop fuel' g gamma node_queue' next_queue' p' r
      | None =>
          if is_empty next_queue then Some (p, r)
          else
            let '(node_queue', r') := shuffle r next_queue in
            move_nodes_loop fuel' g gamma node_queue' [] p r'
      end
  end.

Definition move_nodes (fuel : nat) (g : graph) (p : partition) (gamma : Q)
           (r : rng) : option (partition * rng) :=
  let '(node_queue, r') := shuffle r (vertices g) in
  move_nodes_loop fuel g gamma node_queue [] p r'.

(** *** Refinement *)

Definition theta : Q := 1 # 10.
Definition max_exp : Q := 709 * theta.

(** [count_connecting_edges(graph, c, subset - c)
     >= gamma * get_len(c) * (get_len(subset) - get_len(c))] *)
Definition well_connected (g : graph) (gamma : Q) (c subset : community) : bool :=
  Qle_bool (gamma * Qnat (get_len c) * (Qnat (get_len subset) - Qnat (get_len c)))
           (count_connecting_edges g c (set_diff subset c)).

Definition probability (delta_potts : Q) : prob :=
  if Qle_bool max_exp delta_potts then ExpMax
  else if Qle_bool 0 delta_potts then Exp (delta_potts / theta)
  else Zero.

(** The indices of the communities for which [keep] holds. *)
Fixpoint indices_where (keep : community -> bool) (j : nat) (p : partition)
  : list nat :=
  match p with
  | [] => []
  | c :: rest =>
      if keep c then j :: indices_where keep (S j) rest
      else indices_where keep (S j) rest
  end.

(** The mutation of [merge_nodes_subset]: take the node out of [p[i]],
    drop [p[i]] if it is now empty, add the node to [p[j]]. *)
Definition merge_into (p : partition) (node : vertex) (i j : nat) : partition :=
  let node_community := set_remove node (default [] (p !! i)) in
  let p1 := <[i := node_community]> p in
  let p2 := <[j := set_add node (default [] (p1 !! j))]> p1 in
  if is_empty node_community then remove_first_empty p2 else p2.

(** One round of [for node in well_connected_nodes]. *)
Definition merge_node (g : graph) (gamma : Q) (subset : community)
           (acc : partition * rng) (node : vertex) : option (partition * rng) :=
  let '(p, r) := acc in
  let i := get_community_of_node p node in
  let node_community := community_at p i in
  if (1 <? length node_community)%nat then Some (p, r)
  else
    let well_connected_communities :=
      indices_where
        (fun c => is_subset c subset && well_connected g gamma c subset) 0 p in
    let probabilities :=
      map (fun j =>
             probability
               (delta_potts_model g p gamma node node_community
                  (default [] (p !! j))))
          well_connected_communities in
    let '(k, r') :=
      choices r (length well_connected_communities) probabilities in
    k ← k;
    j ← well_connected_communities !! k;
    if bool_decide (node ∈ default [] (p !! j)) then Some (p, r')
    else
      i ← i;
      Some (merge_into p node i j, r').

Definition merge_nodes_subset (g : graph) (p : partition) (gamma : Q)
           (subset : community) (r : rng) : option (partition * rng) :=
  let well_connected_nodes :=
    filter (fun node =>
              well_connected g gamma [node] subset = true) subset in
  let '(well_connected_nodes, r') := shuffle r well_connected_nodes in
  foldl (fun acc node => acc ← acc; merge_node g gamma subset acc node)
        (Some (p, r')) well_connected_nodes.

Definition refine_partition (g : graph) (p : partition) (gamma : Q) (r : rng)
  : option (partition * rng) :=
  foldl (fun acc community =>
           '(refined_part, r) ← acc;
           merge_nodes_subset g refined_part gamma community r)
        (Some (singleton_partition g, r)) p.

(** *** Aggregation *)

(** The entries of the edge dictionary of the aggregated graph, in the
    order of the comprehension. *)
Definition aggregated_entries (g : graph) (p : partition)
  : list ((vertex * vertex) * Q) :=
  com1 ← p;
  com2 ← p;
  let w := count_connecting_edges g com1 com2 in
  if Qltb 0 w then [((flatten com1, flatten com2), w)] else [].

Definition aggregate_graph (g : graph) (p : partition) : graph :=
  let new_edges :=
    foldl (fun m kv => <[kv.1 := kv.2]> m) ∅ (aggregated_entries g p) in
  {| vertices := remove_dups (map flatten p);
     edges := new_edges;
     edge_connections := dom new_edges |}.

(** The outer partition on the nodes of the aggregated graph:
    [{vertex for vertex in graph['vertices']
      if set(vertex) <= set(self.flatten(community))}]. *)
Definition lift (g : graph) (p : partition) : partition :=
  map (fun community =>
         filter (fun v => forallb (fun a => bool_decide (a ∈ flatten community)) v
                          = true)
                (vertices g)) p.

(** *** The main loop *)

(** One round of [while True] in [get_leiden_parition]. *)
Inductive round : Type :=
| Finished (flat : list (list string))
| Again (g : graph) (p : partition) (r : rng).

Definition leiden_round (fuel : nat) (g : graph) (p : partition) (gamma : Q)
           (r : rng) : option round :=
  '(p, r) ← move_nodes fuel g p gamma r;
  if (length p =? length (vertices g))%nat then Some (Finished (map flatten p))
  else
    '(refined_part, r) ← refine_partition g p gamma r;
    let g' := aggregate_graph g refined_part in
    Some (Again g' (lift g' p) r).

Fixpoint get_leiden_parition (rounds fuel : nat) (g : graph) (p : partition)
         (gamma : Q) (r : rng) : option (list (list string)) :=
  match rounds with
  | O => None
  | S rounds' =>
      round ← leiden_round fuel g p gamma r;
      match round with
      | Finished flat => Some flat
      | Again g' p' r' => get_leiden_parition rounds' fuel g' p' gamma r'
      end
  end.

End Randomised.

End Leiden.

(** * Properties *)

Module PdfPredictorFacts.
Import PdfPredictor.

(** A well-formed predictor stream: [rows] of one tag byte followed by
    [columns] data bytes. *)
Definition encode_rows (rows : list (Z * bytes)) : bytes :=
  flat_map (fun r => r.1 :: r.2) rows.

Definition rows_of_width (c : nat) (rows : list (Z * bytes)) : Prop :=
  Forall (fun r => length r.2 = c) rows.

(** PNG reconstruction, stated byte by byte: [filt] are the filtered
    rows, [out] the reconstructed ones; the row above the first row and
    the byte left of the first column are zero. *)
Definition byte_at (rows : list bytes) (k i : nat) : Z :=
  nth i (nth k rows []) 0.

Definition above (out : list bytes) (k i : nat) : Z :=
  match k with O => 0 | S k' => byte_at out k' i end.

Definition left_of (out : list bytes) (k i : nat) : Z :=
  match i with O => 0 | S i' => byte_at out k i' end.

Definition recon_up (c : nat) (filt out : list bytes) : Prop :=
  length out = length filt /\
  forall k i, (k < length filt)%nat -> (i < c)%nat ->
    byte_at out k i = (above out k i + byte_at filt k i) mod 256.

Definition recon_average (c : nat) (filt out : list bytes) : Prop :=
  length out = length filt /\
  forall k i, (k < length filt)%nat -> (i < c)%nat ->
    byte_at out k i =
      (byte_at filt k i + (left_of out k i + above out k i) / 2) mod 256.

Lemma range_step_shift stop step :
  (0 < step)%nat ->
  range_step (step + stop) step
  = O :: map (fun i => (step + i)%nat) (range_step stop step).
Proof.
  intros Hs. unfold range_step.
  replace ((step + stop + step - 1) / step)%nat
    with (S ((stop + step - 1) / step)).
  2:{ replace (step + stop + step - 1)%nat
        with ((stop + step - 1) + 1 * step)%nat by lia.
      rewrite Nat.div_add by lia. lia. }
  cbn [seq map]. f_equal.
  rewrite <- seq_shift, !map_map. apply map_ext. intros k. lia.
Qed.

Lemma data_rows_cons t row rest c :
  length row = c ->
  data_rows (t :: row ++ rest) c = (t, row) :: data_rows rest c.
Proof.
  intros Hlen. unfold data_rows.
  replace (length (t :: row ++ rest)) with (S c + length rest)%nat
    by (cbn; rewrite length_app; lia).
  rewrite range_step_shift by lia. cbn [map]. f_equal.
  - unfold slice_row. cbn [nth drop]. f_equal.
    rewrite drop_0, take_app_length'; done.
  - rewrite map_map. apply map_ext. intros i.
    unfold slice_row. f_equal.
    + cbn [Nat.add nth]. rewrite app_nth2 by lia. f_equal. lia.
    + f_equal. cbn [Nat.add drop]. rewrite drop_app_ge by lia.
      f_equal. lia.
Qed.

Lemma data_rows_encode rows tail c :
  rows_of_width c rows ->
  data_rows (encode_rows rows ++ tail) c = rows ++ data_rows tail c.
Proof.
  induction 1 as [|[t row] rows Hrow _ IH]; [done|].
  cbn [encode_rows flat_map fst snd] in *.
  rewrite <- !app_comm_cons, <- app_assoc, data_rows_cons by done.
  cbn. f_equal. apply IH.
Qed.

Lemma data_rows_padding c :
  (0 < c)%nat -> exists pad, data_rows (zero_bytes c) c = [pad].
Proof.
  intros Hc. unfold data_rows, range_step, zero_bytes.
  rewrite repeat_length.
  replace ((c + S c - 1) / S c)%nat with 1%nat.
  2:{ apply Nat.div_unique with (r := (c - 1)%nat); lia. }
  cbn. eauto.
Qed.

(** The padding trick of [predictor] recovers exactly the encoded rows. *)
Lemma pop_data_rows rows c :
  (0 < c)%nat -> rows_of_width c rows ->
  pop_last (data_rows (encode_rows rows ++ zero_bytes c) c) = Ok rows.
Proof.
  intros Hc Hrows. rewrite data_rows_encode by done.
  destruct (data_rows_padding c Hc) as [pad ->].
  unfold pop_last. destruct (rows ++ [pad]) eqn:E.
  - by destruct rows.
  - rewrite <- E. by rewrite removelast_last.
Qed.

Lemma up_line_spec c : forall up line,
  length up = c -> length line = c ->
  exists r, up_line c up line = Ok r /\ length r = c /\
    forall i, (i < c)%nat -> nth i r 0 = (nth i up 0 + nth i line 0) mod 256.
Proof.
  induction c as [|c IH]; intros up line Hu Hl.
  - exists []. repeat split. lia.
  - destruct up as [|u up]; [done|]. destruct line as [|x line]; [done|].
    destruct (IH up line) as (r & Hr & Hlen & Hnth); [by inversion Hu|by inversion Hl|].
    exists ((u + x) mod 256 :: r). cbn [up_line]. rewrite Hr. repeat split.
    + cbn. by rewrite Hlen.
    + intros [|i] Hi; [done|]. cbn [nth]. apply Hnth. lia.
Qed.

Lemma avg_line_spec c : forall prior up line,
  length up = c -> length line = c ->
  exists r, avg_line c prior up line = Ok r /\ length r = c /\
    forall i, (i < c)%nat ->
      nth i r 0 = (nth i line 0
                   + (match i with O => prior | S i' => nth i' r 0 end
                      + nth i up 0) / 2) mod 256.
Proof.
  induction c as [|c IH]; intros prior up line Hu Hl.
  - exists []. repeat split. lia.
  - destruct up as [|u up]; [done|]. destruct line as [|x line]; [done|].
    destruct (IH ((x + (prior + u) / 2) mod 256) up line)
      as (r & Hr & Hlen & Hnth); [by inversion Hu|by inversion Hl|].
    exists ((x + (prior + u) / 2) mod 256 :: r).
    cbn [avg_line]. cbv zeta. rewrite Hr. repeat split.
    + cbn. by rewrite Hlen.
    + intros [|i] Hi; [done|]. cbn [nth].
      rewrite Hnth by lia. by destruct i.
Qed.

(** The row loop with a running [up] row: row [k] is reconstructed from
    the filtered row [k] and the reconstructed row [k - 1] ([up0] for
    the first row); [step_ok] is the byte-level law of one row. *)
Lemma fold_rows_spec c (step : bytes -> bytes -> result bytes)
      (law : bytes -> bytes -> bytes -> Prop) :
  (forall up line, length up = c -> length line = c ->
     exists r, step up line = Ok r /\ length r = c /\ law up line r) ->
  forall rows up0, length up0 = c -> rows_of_width c rows ->
  exists out, fold_rows step up0 rows = Ok (concat out) /\
    length out = length rows /\
    forall k, (k < length rows)%nat ->
      law (match k with O => up0 | S k' => nth k' out [] end)
          (nth k (map snd rows) []) (nth k out []).
Proof.
  intros Hstep rows. induction rows as [|[t line] rows IH]; intros up0 Hup Hrows.
  - exists []. repeat split. cbn. lia.
  - apply Forall_cons in Hrows as [Hline Hrest]. cbn [snd] in Hline.
    destruct (Hstep up0 line Hup Hline) as (r & Hr & Hlen & Hlaw).
    destruct (IH r Hlen Hrest) as (out & Hout & Hlo & Hk).
    exists (r :: out). cbn [fold_rows]. rewrite Hr. cbn. rewrite Hout. cbn.
    repeat split; [by rewrite Hlo|].
    intros [|k] Hlt; [done|]. specialize (Hk k ltac:(cbn in Hlt; lia)).
    cbn [nth map]. by destruct k.
Qed.

Lemma predictor_png_prelude rows columns p :
  0 < columns -> rows_of_width (Z.to_nat columns) rows ->
  10 <= p ->
  predictor (encode_rows rows) p 1 8 columns
  = (if p =? 10 then Ok (concat (map snd rows))
     else if p =? 11 then Ok (concat (map (fun r => sub_line 0 r.2) rows))
     else if p =? 12
          then fold_rows (up_line (Z.to_nat columns))
                         (zero_bytes (Z.to_nat columns)) rows
     else if p =? 13
          then fold_rows (avg_line (Z.to_nat columns) 0)
                         (zero_bytes (Z.to_nat columns)) rows
     else Raise NotImplementedError).
Proof.
  intros Hc Hrows Hp. unfold predictor. cbn [Z.eqb negb].
  replace (p =? 1) with false by lia. replace (p =? 2) with false by lia.
  replace (columns <? 0) with false by lia.
  cbv zeta. rewrite pop_data_rows by (done || lia). done.
Qed.

Lemma nth_zero_bytes c i : nth i (zero_bytes c) 0 = 0.
Proof.
  unfold zero_bytes. revert i. induction c; intros [|i]; cbn; auto.
Qed.

Definition png_parms (p columns : Z) : decode_parms :=
  {| Predictor := Some p; Colors := None; BitsPerComponent := None;
     Columns := Some columns |}.

(** C8, as the code has it.  For a Flate stream that decompresses to
    rows of one tag byte and [columns] data bytes (one colour, eight
    bits), [_flate_decode] with [/Predictor] 10 (None) returns the rows
    without their tag bytes, with 12 (Up) each byte plus the byte above
    it modulo 256, with 13 (Average) each byte plus the floor of the mean
    of the bytes to the left and above; a [/Predictor] of 14 (Paeth) or
    more is rejected with [NotImplementedError]. *)
Theorem flate_decode_png_predictors
    (decompress : bytes -> result bytes) (stream : bytes)
    (rows : list (Z * bytes)) (columns : Z) :
  0 < columns ->
  rows_of_width (Z.to_nat columns) rows ->
  decompress stream = Ok (encode_rows rows) ->
  let c := Z.to_nat columns in
  let filt := map snd rows in
  let run p := _flate_decode decompress stream (Some (png_parms p columns)) in
  run 10 = Ok (concat filt)
  /\ (exists out, run 12 = Ok (concat out) /\ recon_up c filt out)
  /\ (exists out, run 13 = Ok (concat out) /\ recon_average c filt out)
  /\ (forall p, 14 <= p -> run p = Raise NotImplementedError).
Proof.
  intros Hc Hrows Hdec c filt run.
  assert (Hrun : forall p, 10 <= p ->
            run p = predictor (encode_rows rows) p 1 8 columns).
  { intros p _. unfold run, _flate_decode. rewrite Hdec. done. }
  repeat split.
  - rewrite Hrun, predictor_png_prelude by (done || lia). done.
  - destruct (fold_rows_spec c (up_line c)
                (fun up line r => forall i, (i < c)%nat ->
                   nth i r 0 = (nth i up 0 + nth i line 0) mod 256))
      with (rows := rows) (up0 := zero_bytes c)
      as (out & Hout & Hlen & Hlaw);
      [ intros; by apply up_line_spec
      | apply repeat_length | done | ].
    exists out. rewrite Hrun, predictor_png_prelude by (done || lia).
    split; [done|]. subst filt. split; [by rewrite length_map|].
    intros k i Hk Hi. rewrite length_map in Hk.
    unfold byte_at. etrans; [apply (Hlaw k Hk i Hi)|].
    destruct k; cbn [above]; [by rewrite nth_zero_bytes|done].
  - destruct (fold_rows_spec c (avg_line c 0)
                (fun up line r => forall i, (i < c)%nat ->
                   nth i r 0 = (nth i line 0
                     + (match i with O => 0 | S i' => nth i' r 0 end
                        + nth i up 0) / 2) mod 256))
      with (rows := rows) (up0 := zero_bytes c)
      as (out & Hout & Hlen & Hlaw);
      [ intros; by apply avg_line_spec
      | apply repeat_length | done | ].
    exists out. rewrite Hrun, predictor_png_prelude by (done || lia).
    split; [done|]. subst filt. split; [by rewrite length_map|].
    intros k i Hk Hi. rewrite length_map in Hk.
    unfold byte_at. etrans; [apply (Hlaw k Hk i Hi)|].
    destruct k, i; cbn [above left_of byte_at];
      rewrite ?nth_zero_bytes; done.
  - intros p Hp. rewrite Hrun, predictor_png_prelude by (done || lia).
    replace (p =? 10) with false by lia. replace (p =? 11) with false by lia.
    replace (p =? 12) with false by lia. replace (p =? 13) with false by lia.
    done.
Qed.

(** The theorem at a two-row stream of width three. *)
Lemma flate_decode_png_predictors_witness :
  let rows := [(2, [10; 20; 30]); (2, [250; 7; 9])] in
  let run p := _flate_decode Ok (encode_rows rows) (Some (png_parms p 3)) in
  run 10 = Ok [10; 20; 30; 250; 7; 9]
  /\ (exists out, run 12 = Ok (concat out)
                  /\ recon_up 3 (map snd rows) out)
  /\ (exists out, run 13 = Ok (concat out)
                  /\ recon_average 3 (map snd rows) out)
  /\ (forall p, 14 <= p -> run p = Raise NotImplementedError).
Proof.
  intros rows run.
  apply (flate_decode_png_predictors Ok (encode_rows rows) rows 3).
  - lia.
  - repeat constructor.
  - reflexivity.
Defined.

(** C8 as stated fails: a Paeth stream is not decoded. *)
Lemma flate_decode_paeth_rejected :
  ~ exists out,
      _flate_decode Ok [4; 10; 20; 30] (Some (png_parms 14 3)) = Ok out.
Proof. intros [out H]. vm_compute in H. discriminate. Qed.

(** Predictor 11 (Sub) returns the filtered bytes unchanged: the running
    sum [prior] is computed and dropped. *)
Example predictor_sub_returns_filtered :
  _flate_decode Ok [1; 10; 20; 30] (Some (png_parms 11 3)) = Ok [10; 20; 30].
Proof. reflexivity. Qed.

End PdfPredictorFacts.

Module RetrieverFacts.
Import Py Retriever.

Lemma Qltb_lt x y : Qltb x y = true <-> (x < y)%Q.
Proof.
  unfold Qltb. rewrite negb_true_iff, <- not_true_iff_false, Qle_bool_iff.
  split; [apply Qnot_le_lt | apply Qlt_not_le].
Qed.

Lemma or_no_documents_nonempty results : or_no_documents results <> [].
Proof. by destruct results. Qed.

Lemma insert_desc_Forall {A K} (ltb : K -> K -> bool) (key : A -> K)
      (P : A -> Prop) x s :
  P x -> Forall P s -> Forall P (insert_desc ltb key x s).
Proof.
  intros Hx. induction 1 as [|y s Hy Hs IH]; cbn.
  - by constructor.
  - destruct (ltb (key x) (key y)); repeat constructor; auto.
Qed.

Lemma sorted_desc_Forall {A K} (ltb : K -> K -> bool) (key : A -> K)
      (P : A -> Prop) l :
  Forall P l -> Forall P (sorted_desc ltb key l).
Proof.
  induction 1; cbn; [constructor|]. by apply insert_desc_Forall.
Qed.

Section StrategyFacts.

Variable repr_keys : list string -> string.
Variable knn_search : Z -> Q -> list vector_hit.
Variable file_by_key : string -> option file_node.
Variable llm_generate : string -> nat -> string.
Variable py_eval : string -> option pyval.
Variable communities_of_degree : Z -> list community_node.
Variable shuffle : list community_node -> list community_node.

Lemma collect_above_none cutoff hits :
  Forall (fun h => (_score h < cutoff)%Q) hits ->
  collect_above repr_keys cutoff hits = [].
Proof.
  destruct 1 as [|h hits Hh _]; [done|]. cbn.
  apply Qltb_lt in Hh. by rewrite Hh.
Qed.

Lemma rank_none cutoff max_matches infos :
  Forall (fun i => i.1.1.1 < cutoff) infos ->
  rank repr_keys cutoff max_matches infos [] = [].
Proof.
  destruct 1 as [|i infos Hi _]; [done|]. cbn.
  by replace (i.1.1.1 <? cutoff) with true by lia.
Qed.

Lemma accumulate_none cutoff hits refs :
  Forall (fun h => (_score h < cutoff)%Q) hits ->
  accumulate cutoff hits refs = Ok refs.
Proof.
  induction 1 as [|h hits Hh _ IH]; [done|]. cbn.
  apply Qltb_lt in Hh. by rewrite Hh.
Qed.

Lemma dict_add_keys (P : string -> Prop) source v d :
  P source -> Forall (fun kv => P kv.1) d ->
  Forall (fun kv => P kv.1) (dict_add source v d).
Proof.
  intros Hs. induction 1 as [|[k old] d Hk Hd IH]; cbn.
  - by repeat constructor.
  - destruct (String.eqb k source); constructor; auto.
Qed.

(** A hit GARAG can process: its [source_ref] has a non-zero [_total]
    and every other key names a [File] vertex of the graph store. *)
Definition garag_hit_ok (h : vector_hit) : Prop :=
  (exists total, lookup_count (hit_source_ref h) "_total" = Some total
                 /\ total <> 0)
  /\ Forall (fun kv => kv.1 <> "_total" -> is_Some (file_by_key kv.1))
            (hit_source_ref h).

Definition has_file (kv : string * Q) : Prop := is_Some (file_by_key kv.1).

Lemma add_sources_ok score source_ref total items refs :
  lookup_count source_ref "_total" = Some total -> total <> 0 ->
  Forall (fun kv => kv.1 <> "_total" -> is_Some (file_by_key kv.1)) items ->
  Forall has_file refs ->
  exists refs', add_sources score source_ref items refs = Ok refs'
                /\ Forall has_file refs'.
Proof.
  intros Ht Hnz Hitems. revert refs.
  induction Hitems as [|[source count] items Hi _ IH]; intros refs Hrefs.
  - by exists refs.
  - cbn [add_sources]. destruct (String.eqb source "_total") eqn:E.
    + by apply IH.
    + rewrite Ht. replace (total =? 0) with false by lia.
      apply IH. apply (dict_add_keys (fun k => is_Some (file_by_key k)));
        [|done].
      apply Hi. cbn. intros ->. by rewrite String.eqb_refl in E.
Qed.

Lemma accumulate_ok cutoff hits refs :
  Forall (fun h => (cutoff <= _score h)%Q -> garag_hit_ok h) hits ->
  Forall has_file refs ->
  exists refs', accumulate cutoff hits refs = Ok refs'
                /\ Forall has_file refs'.
Proof.
  intros Hhits. revert refs.
  induction Hhits as [|h hits Hh _ IH]; intros refs Hrefs.
  - by exists refs.
  - cbn [accumulate]. destruct (Qltb (_score h) cutoff) eqn:Hlt;
      [by apply IH|].
    destruct Hh as [(total & Ht & Hnz) Hkeys].
    { apply Qnot_lt_le. intros Hc. apply Qltb_lt in Hc. congruence. }
    destruct (add_sources_ok (_score h) _ total _ refs Ht Hnz Hkeys Hrefs)
      as (refs1 & -> & Hrefs1).
    by apply IH.
Qed.

Lemma fetch_files_ok refs max_matches :
  Forall has_file refs ->
  exists l, fetch_files repr_keys file_by_key refs max_matches = Ok l
            /\ (refs <> [] -> l <> []).
Proof.
  intros Hrefs. revert max_matches.
  induction Hrefs as [|[k v] refs [f Hf] _ IH]; intros max_matches.
  - by exists [].
  - cbn [fetch_files]. cbn in Hf. rewrite Hf.
    destruct (max_matches - 1 =? 0); [by eexists|].
    destruct (IH (max_matches - 1)) as (l & -> & _). by eexists.
Qed.

(** The candidates each strategy ranks, as the code computes them. *)
Definition naive_hits (max_matches : option Z) : list vector_hit :=
  knn_search (clamp_max_matches max_matches)
    (Qmax 64 ((15 # 10) * inject_Z (clamp_max_matches max_matches))).

Definition garag_hits (max_matches : option Z) : list vector_hit :=
  knn_search (clamp_max_matches max_matches * 2)
    (inject_Z (Z.max 128 (3 * clamp_max_matches max_matches))).

Definition graph_infos (community_degree : option Z)
  : list (Z * string * list string * list string) :=
  map (fun b => snd (generate_community_information llm_generate py_eval b))
      (stitch (shuffle
         (flat_map (fun degree => communities_of_degree (Z.of_nat degree))
            (seq 0 (Z.to_nat
               (match community_degree with
                | None => 1 | Some d => Z.max 0 d end + 1)))))).

Definition graph_cutoff (confidence_cutoff : option Z) : Z :=
  match confidence_cutoff with None => 40 | Some c => Z.max 0 (Z.min 100 c) end.

(** C10, amended.  GraphRAG, NaiveGraphRAG and NaiveRAG return a
    non-empty list of records.  GARAG returns a non-empty list whenever it
    returns, and it returns when the store holds the [File] vertices and
    the non-zero [_total] counters that the hits passing the cutoff refer
    to.  When no candidate passes the confidence cutoff each of the four
    returns exactly the sentinel record, whose name is
    "NO DOCUMENTS FOUND", whose type is [NONE] and whose matched content
    is empty. *)
Theorem strategies_return_records
    (max_matches community_degree icut : option Z) (qcut : option Q) :
  let graph := _graph_rag_retrieve repr_keys llm_generate py_eval
                 communities_of_degree shuffle
                 max_matches community_degree icut in
  let naive_graph := _naive_graph_rag_retrieve repr_keys knn_search
                       max_matches qcut in
  let naive := _naive_rag_retrieve repr_keys knn_search max_matches qcut in
  let garag := _garag_retrieve repr_keys knn_search file_by_key
                 max_matches qcut in
  (graph <> []
   /\ (Forall (fun i => i.1.1.1 < graph_cutoff icut)
              (graph_infos community_degree)
       -> graph = [no_documents_found]))
  /\ (naive_graph <> []
      /\ (Forall (fun h => (_score h < clamp_cutoff qcut)%Q)
                 (naive_hits max_matches)
          -> naive_graph = [no_documents_found]))
  /\ (naive <> []
      /\ (Forall (fun h => (_score h < clamp_cutoff qcut)%Q)
                 (naive_hits max_matches)
          -> naive = [no_documents_found]))
  /\ ((forall l, garag = Ok l -> l <> [])
      /\ (Forall (fun h => (clamp_cutoff qcut <= _score h)%Q -> garag_hit_ok h)
                 (garag_hits max_matches)
          -> exists l, garag = Ok l)
      /\ (Forall (fun h => (_score h < clamp_cutoff qcut)%Q)
                 (garag_hits max_matches)
          -> garag = Ok [no_documents_found]))
  /\ name no_documents_found = "NO DOCUMENTS FOUND"
  /\ type no_documents_found = NONE
  /\ matchedContent no_documents_found = "".
Proof.
  intros graph naive_graph naive garag.
  split; [|split; [|split; [|split]]].
  - split; [apply or_no_documents_nonempty|]. intros Hbelow.
    unfold graph, _graph_rag_retrieve. cbv zeta.
    rewrite rank_none; [done|]. by apply sorted_desc_Forall.
  - split; [apply or_no_documents_nonempty|]. intros Hbelow.
    unfold naive_graph, _naive_graph_rag_retrieve. cbv zeta.
    rewrite collect_above_none; [done|]. by apply sorted_desc_Forall.
  - split; [apply or_no_documents_nonempty|]. intros Hbelow.
    unfold naive, _naive_rag_retrieve. cbv zeta.
    rewrite collect_above_none; [done|]. by apply sorted_desc_Forall.
  - unfold garag, _garag_retrieve. cbv zeta.
    fold (garag_hits max_matches). split; [|split].
    + intros l.
      destruct (accumulate _ _ _) as [refs|]; [|done]. cbn.
      destruct (fetch_files _ _ _ _) as [results|]; [|done]. cbn.
      intros [= <-]. apply or_no_documents_nonempty.
    + intros Hok.
      destruct (accumulate_ok (clamp_cutoff qcut) _ [] Hok)
        as (refs & Hacc & Hrefs); [constructor|].
      destruct (fetch_files_ok (sorted_desc Qltb snd refs)
                  (clamp_max_matches max_matches))
        as (l & Hl & _); [by apply sorted_desc_Forall|].
      exists (or_no_documents l). rewrite Hacc. cbn. by rewrite Hl.
    + intros Hbelow. by rewrite accumulate_none.
  - done.
Qed.

End StrategyFacts.

(** A small store: two summaries, one above the default cutoff, and the
    file its [source_ref] points to. *)
Definition demo_hits : list vector_hit :=
  [ {| _score := 1 # 2; hit_content := "summary A";
       hit_source := [("a.pdf Page (1)", 1)]; hit_document := [("a.pdf", 1)];
       hit_source_ref := [("f1", 2); ("_total", 2)] |};
    {| _score := 1 # 100; hit_content := "summary B";
       hit_source := []; hit_document := [];
       hit_source_ref := [("f2", 1); ("_total", 1)] |} ].

Definition demo_files (key : string) : option file_node :=
  if String.eqb key "f1" || String.eqb key "f2"
  then Some {| file_content := "chunk"; file_source := [];
               file_document := [] |}
  else None.

Lemma strategies_return_records_witness :
  _garag_retrieve (String.concat ",") (fun _ _ => demo_hits) demo_files
                  None None
  = Ok [ {| name := ""; category := CATEGORY; path := ""; type := TEXT;
            matchedContent := "chunk"; surroundingContent := [];
            links := [] |} ].
Proof.
  assert (Hok : Forall (fun h => (clamp_cutoff None <= _score h)%Q ->
                                 garag_hit_ok demo_files h)
                  (garag_hits (fun _ _ => demo_hits) None)).
  { unfold garag_hits, demo_hits.
    repeat apply Forall_cons_2; try apply Forall_nil_2; intros _;
      (split; [eexists; split; [reflexivity|lia]|]); cbn [hit_source_ref];
      repeat apply Forall_cons_2; try apply Forall_nil_2;
      cbn; intros Hne; first [by destruct Hne | by eexists]. }
  destruct (strategies_return_records (String.concat ",")
              (fun _ _ => demo_hits) demo_files (fun _ _ => "")
              (fun _ => None) (fun _ => []) id None None None None)
    as (_ & _ & _ & (_ & Hreturns & _) & _).
  destruct (Hreturns Hok) as (l & Hl).
  rewrite Hl. vm_compute in Hl. by injection Hl as <-.
Defined.

(** C10 as stated, for GARAG: whatever the stores hold, the strategy
    returns a non-empty list of records. *)
Definition garag_returns_claim : Prop :=
  forall (repr_keys : list string -> string)
         (knn_search : Z -> Q -> list vector_hit)
         (file_by_key : string -> option file_node)
         (max_matches : option Z) (confidence_cutoff : option Q),
    exists l,
      _garag_retrieve repr_keys knn_search file_by_key
                      max_matches confidence_cutoff = Ok l
      /\ l <> [].

(** C10 fails for GARAG when a hit that passes the cutoff refers to a
    file the graph store does not hold: [__next__()] on the empty cursor
    raises [StopIteration] and no list is returned. *)
Lemma garag_returns_claim_fails : ~ garag_returns_claim.
Proof.
  intros H.
  destruct (H (String.concat ",")
              (fun _ _ =>
                 [ {| _score := 1 # 2; hit_content := "summary";
                      hit_source := []; hit_document := [];
                      hit_source_ref := [("f1", 1); ("_total", 1)] |} ])
              (fun _ => None) None None) as (l & Hl & _).
  vm_compute in Hl. discriminate Hl.
Qed.

(** *** GARAG contributions *)

Lemma clamp_cutoff_nonneg c : (0 <= clamp_cutoff c)%Q.
Proof.
  destruct c as [c|]; cbn; [apply Q.le_max_l|]. by vm_compute.
Qed.

(** What one [source_ref] entry adds to the per-file accumulator. *)
Lemma add_sources_single score source_ref source count total refs :
  source <> "_total" ->
  lookup_count source_ref "_total" = Some total -> total <> 0 ->
  add_sources score source_ref [(source, count)] refs
  = Ok (dict_add source (contribution score count total) refs).
Proof.
  intros Hs Ht Hnz. cbn.
  destruct (String.eqb_spec source "_total"); [done|].
  rewrite Ht. by replace (total =? 0) with false by lia.
Qed.

Lemma contribution_lt sA sB (cA cB tA tB : Z) :
  (0 <= sB)%Q -> (sB < sA)%Q ->
  0 < cA -> 0 < tA -> 0 < tB -> cB * tA <= cA * tB ->
  (contribution sB cB tB < contribution sA cA tA)%Q.
Proof.
  intros HsB Hlt HcA HtA HtB Hshare. unfold contribution.
  assert (HA : (inject_Z 0 < inject_Z tA)%Q) by (by rewrite <- Zlt_Qlt).
  assert (HB : (inject_Z 0 < inject_Z tB)%Q) by (by rewrite <- Zlt_Qlt).
  apply Qlt_shift_div_r; [done|].
  apply Qmult_lt_r with (z := inject_Z tA); [done|].
  assert (E : (sA * inject_Z cA / inject_Z tA * inject_Z tB * inject_Z tA
               == sA * (inject_Z cA * inject_Z tB))%Q).
  { field. intros H0. rewrite H0 in HA. by apply Qlt_irrefl in HA. }
  rewrite E, <- Qmult_assoc, <- !inject_Z_mult.
  assert (Hxy : (inject_Z (cB * tA) <= inject_Z (cA * tB))%Q)
    by (by rewrite <- Zle_Qle).
  assert (Hy : (inject_Z 0 < inject_Z (cA * tB))%Q)
    by (rewrite <- Zlt_Qlt; lia).
  revert Hxy Hy. generalize (inject_Z (cB * tA)) (inject_Z (cA * tB)).
  intros x y Hxy Hy. change (inject_Z 0) with 0%Q in Hy. nra.
Qed.

(** C6 as stated: a strictly higher score gives a strictly greater
    contribution to every source key the two hits share. *)
Definition score_monotone_claim : Prop :=
  forall (cutoff : option Q) (a b : vector_hit) (key : string)
         (cA cB tA tB : Z),
    Qltb (_score a) (clamp_cutoff cutoff) = false ->
    Qltb (_score b) (clamp_cutoff cutoff) = false ->
    (_score b < _score a)%Q ->
    key <> "_total" ->
    lookup_count (hit_source_ref a) key = Some cA ->
    lookup_count (hit_source_ref a) "_total" = Some tA ->
    lookup_count (hit_source_ref b) key = Some cB ->
    lookup_count (hit_source_ref b) "_total" = Some tB ->
    (contribution (_score b) cB tB < contribution (_score a) cA tA)%Q.

(** C6 fails when the key's share of [_total] is smaller in the
    higher-scored hit: [0.9 * 1 / 10 < 0.5 * 1 / 1]. *)
Lemma score_monotone_claim_fails : ~ score_monotone_claim.
Proof.
  intros H.
  specialize (H None
    {| _score := 9 # 10; hit_content := ""; hit_source := [];
       hit_document := [];
       hit_source_ref := [("f1", 1); ("f2", 9); ("_total", 10)] |}
    {| _score := 5 # 10; hit_content := ""; hit_source := [];
       hit_document := [];
       hit_source_ref := [("f1", 1); ("_total", 1)] |}
    "f1" 1 1 10 1).
  cbn in H. vm_compute in H.
  specialize (H eq_refl eq_refl eq_refl ltac:(discriminate)
                eq_refl eq_refl eq_refl eq_refl).
  discriminate H.
Qed.

(** C6, amended.  For two hits that pass the cutoff, a strictly higher
    score gives a strictly greater contribution [score * count / _total]
    to every source key other than [_total] whose share [count / _total]
    in the higher-scored hit is positive and at least its share in the
    other hit (scores taken as exact rationals). *)
Theorem garag_score_monotone
    (cutoff : option Q) (a b : vector_hit) (key : string)
    (cA cB tA tB : Z) :
  Qltb (_score a) (clamp_cutoff cutoff) = false ->
  Qltb (_score b) (clamp_cutoff cutoff) = false ->
  (_score b < _score a)%Q ->
  key <> "_total" ->
  lookup_count (hit_source_ref a) key = Some cA ->
  lookup_count (hit_source_ref a) "_total" = Some tA ->
  lookup_count (hit_source_ref b) key = Some cB ->
  lookup_count (hit_source_ref b) "_total" = Some tB ->
  0 < cA -> 0 < tA -> 0 < tB -> cB * tA <= cA * tB ->
  (contribution (_score b) cB tB < contribution (_score a) cA tA)%Q.
Proof.
  intros _ Hb Hlt _ _ _ _ _ HcA HtA HtB Hshare.
  apply contribution_lt; try done.
  apply Qle_trans with (y := clamp_cutoff cutoff);
    [apply clamp_cutoff_nonneg|].
  apply Qnot_lt_le. intros Hc. apply Qltb_lt in Hc. congruence.
Qed.

Lemma garag_score_monotone_witness :
  (contribution (5 # 10) 1 2 < contribution (9 # 10) 1 2)%Q.
Proof.
  apply (garag_score_monotone None
    {| _score := 9 # 10; hit_content := ""; hit_source := [];
       hit_document := [];
       hit_source_ref := [("f1", 1); ("f2", 1); ("_total", 2)] |}
    {| _score := 5 # 10; hit_content := ""; hit_source := [];
       hit_document := [];
       hit_source_ref := [("f1", 1); ("f3", 1); ("_total", 2)] |}
    "f1" 1 1 2 2); try reflexivity; try lia; discriminate.
Defined.

End RetrieverFacts.

Module KGBuilderFacts.
Import Py KGBuilder.



Lemma clean_allowed s :
  Forall (fun a => allowed_char a = true) (list_ascii_of_string (clean s)).
Proof.
  unfold clean. generalize (replace_char " " "_" s). intros t.
  induction t as [|a t IH]; cbn; [constructor|].
  destruct (allowed_char a) eqn:E; [|done]. cbn. by constructor.
Qed.



Section BuilderFacts.

Variable key_accepted : string -> bool.
Variable llm_generate : string -> nat -> string.
Variable _try_get_relations : string -> pyval.






End BuilderFacts.


(** A response with a noisy triple, a self reference and an empty field:
    only the first one is persisted, cleaned. *)
Definition demo_relations : list pyval :=
  [ PDict [(PStr "From", PStr "New York"); (PStr "To", PStr "U.S.A?");
           (PStr "Relation", PStr "is in")];
    PDict [(PStr "From", PStr "a b"); (PStr "To", PStr "a_b");
           (PStr "Relation", PStr "same")];
    PDict [(PStr "From", PStr "x"); (PStr "To", PStr "???");
           (PStr "Relation", PStr "r")] ].


Example demo_relations_persisted :
  map_to_list
    (Relation
       (_insert_relations (fun _ => true) demo_relations ∅ ∅ ∅ empty_db).1)
  = [(("New_York", "U.S.A", "is_in"), 1)].
Proof. by vm_compute. Qed.

(** Only the space is mapped to an underscore; other white space is
    removed by the class filter. *)
Example clean_space_and_tab :
  clean (String "a" (String " " (String "b" (String "009" "c")))) = "a_bc".
Proof. reflexivity. Qed.

End KGBuilderFacts.

Module RetryFacts.
Import Py.

Section Loops.

Variable key_accepted : string -> bool.
Variable llm_generate : string -> nat -> string.
Variable _try_get_relations : string -> pyval.
Variable py_eval : string -> option pyval.

Lemma ner_attempts_bound n : forall attempt content,
  ((KGBuilder.ner_attempts llm_generate _try_get_relations
      n attempt content).1 <= attempt + n)%nat.
Proof.
  induction n as [|n IH]; intros attempt content; cbn; [lia|].
  destruct (KGBuilder.usable_relations _); cbn; [lia|].
  specialize (IH (S attempt) content). lia.
Qed.

Lemma ner_attempts_exhausted n : forall attempt content,
  (forall k, (attempt <= k < attempt + n)%nat ->
     KGBuilder.usable_relations
       (_try_get_relations (llm_generate content k)) = None) ->
  KGBuilder.ner_attempts llm_generate _try_get_relations n attempt content
  = ((attempt + n)%nat, None).
Proof.
  induction n as [|n IH]; intros attempt content Hbad; cbn.
  - f_equal. lia.
  - rewrite Hbad by lia. rewrite IH by (intros; apply Hbad; lia).
    f_equal. lia.
Qed.

Lemma information_attempts_bound n : forall attempt information,
  ((Retriever.information_attempts llm_generate py_eval
      n attempt information).1 <= attempt + n)%nat.
Proof.
  induction n as [|n IH]; intros attempt information; cbn; [lia|].
  destruct (Retriever.valid_information _ _); cbn; [lia|].
  specialize (IH (S attempt) information). lia.
Qed.

Lemma information_attempts_exhausted n : forall attempt information,
  (forall k, (attempt <= k < attempt + n)%nat ->
     Retriever.valid_information py_eval (llm_generate information k) = None) ->
  Retriever.information_attempts llm_generate py_eval n attempt information
  = ((attempt + n)%nat, None).
Proof.
  induction n as [|n IH]; intros attempt information Hbad; cbn.
  - f_equal. lia.
  - rewrite Hbad by lia. rewrite IH by (intros; apply Hbad; lia).
    f_equal. lia.
Qed.

(** The summariser's loop goes on for as long as the rounds say
    [Continue]. *)
Lemma request_summary_continue fuel : forall attempt summary,
  (forall k, (attempt <= k < attempt + fuel)%nat ->
     Summariser.one_round py_eval (llm_generate summary k)
     = Summariser.Continue) ->
  Summariser.request_summary llm_generate py_eval fuel attempt summary
  = ((attempt + fuel)%nat, None).
Proof.
  induction fuel as [|fuel IH]; intros attempt summary Hbad; cbn.
  - f_equal. lia.
  - rewrite Hbad by lia. rewrite IH by (intros; apply Hbad; lia).
    f_equal. lia.
Qed.

(** It stops at the first round that does not. *)
Lemma request_summary_stops fuel : forall attempt summary k,
  (forall j, (attempt <= j < attempt + k)%nat ->
     Summariser.one_round py_eval (llm_generate summary j)
     = Summariser.Continue) ->
  Summariser.one_round py_eval (llm_generate summary (attempt + k))
  <> Summariser.Continue ->
  (k < fuel)%nat ->
  Summariser.request_summary llm_generate py_eval fuel attempt summary
  = (S (attempt + k),
     Some (Summariser.one_round py_eval (llm_generate summary (attempt + k)))).
Proof.
  induction fuel as [|fuel IH]; intros attempt summary k Hbad Hgood Hk;
    [lia|]. cbn [Summariser.request_summary]. destruct k as [|k].
  - rewrite Nat.add_0_r in *.
    by destruct (Summariser.one_round _ _).
  - rewrite Hbad by lia.
    replace (attempt + S k)%nat with (S attempt + k)%nat in * by lia.
    apply IH; [intros; apply Hbad; lia|done|lia].
Qed.

End Loops.

(** C5 as stated bounds the summariser's retries by ten. *)
Definition summariser_bounded_claim : Prop :=
  forall (llm_generate : string -> nat -> string)
         (py_eval : string -> option pyval) (summary : string) (fuel : nat),
    ((Summariser.request_summary llm_generate py_eval fuel 0 summary).1
     <= 10)%nat.

(** With an LLM whose answers never parse, the summariser is at its
    eleventh request and still in the loop. *)
Lemma summariser_bounded_claim_fails : ~ summariser_bounded_claim.
Proof.
  intros H.
  specialize (H (fun _ _ => "no json") (fun _ => None) "excerpt" 11%nat).
  vm_compute in H. lia.
Qed.

(** C5, amended.  The KG builder asks the LLM at most 8 times per chunk
    and, when none of the 8 answers is usable, marks the file as parsed
    and writes nothing else; the GraphRAG query asks at most 10 times per
    information block and, when none of the 10 answers is valid, returns
    confidence 0 with empty information.  The community summariser repeats
    its request until a round ends the loop: it stops at the first answer
    that passes (or raises), and while every answer fails it is still
    running after any number of requests. *)
Theorem llm_retry_loops
    (key_accepted : string -> bool)
    (llm_generate : string -> nat -> string)
    (_try_get_relations : string -> pyval)
    (py_eval : string -> option pyval) :
  (forall db content file_key src doc,
     let r := KGBuilder.generate_ner_results key_accepted llm_generate
                _try_get_relations db content file_key src doc in
     (r.1.1 <= 8)%nat
     /\ ((forall k, (k < 8)%nat ->
            KGBuilder.usable_relations
              (_try_get_relations (llm_generate content k)) = None) ->
         r = (8%nat, KGBuilder.mark_parsed db file_key, None)))
  /\ (forall information source document,
        let r := Retriever.generate_community_information llm_generate
                   py_eval (information, source, document) in
        (r.1 <= 10)%nat
        /\ ((forall k, (k < 10)%nat ->
               Retriever.valid_information py_eval
                 (llm_generate information k) = None) ->
            r = (10%nat, (0, "", [], []))))
  /\ (forall summary,
        (forall k,
           (forall j, (j < k)%nat ->
              Summariser.one_round py_eval (llm_generate summary j)
              = Summariser.Continue) ->
           Summariser.one_round py_eval (llm_generate summary k)
           <> Summariser.Continue ->
           forall fuel, (k < fuel)%nat ->
             Summariser.request_summary llm_generate py_eval fuel 0 summary
             = (S k, Some (Summariser.one_round py_eval
                             (llm_generate summary k))))
        /\ ((forall k, Summariser.one_round py_eval (llm_generate summary k)
                       = Summariser.Continue) ->
            forall fuel,
              Summariser.request_summary llm_generate py_eval fuel 0 summary
              = (fuel, None))).
Proof.
  split; [|split].
  - intros db content file_key src doc r.
    pose proof (ner_attempts_bound llm_generate _try_get_relations
                  8 0 content) as Hb.
    subst r. unfold KGBuilder.generate_ner_results. split.
    + destruct (KGBuilder.ner_attempts _ _ _ _ _) as [calls [rels|]];
        [|done]. by destruct (KGBuilder._insert_relations _ _ _ _ _ _)
                     as [? [?|]].
    + intros Hbad.
      rewrite ner_attempts_exhausted by (intros; apply Hbad; lia). done.
  - intros information source document r.
    pose proof (information_attempts_bound llm_generate py_eval
                  10 0 information) as Hb.
    subst r. unfold Retriever.generate_community_information. split.
    + by destruct (Retriever.information_attempts _ _ _ _ _)
        as [calls [[? ?]|]].
    + intros Hbad.
      rewrite information_attempts_exhausted by (intros; apply Hbad; lia).
      done.
  - intros summary. split.
    + intros k Hbad Hgood fuel Hk.
      apply (request_summary_stops llm_generate py_eval fuel 0 summary k);
        [intros; apply Hbad; lia|done|done].
    + intros Hbad fuel.
      apply (request_summary_continue llm_generate py_eval fuel 0 summary).
      intros; apply Hbad.
Qed.

(** The theorem at an LLM whose answers never parse. *)
Lemma llm_retry_loops_witness :
  KGBuilder.generate_ner_results (fun _ => true) (fun _ _ => "no json")
    (fun _ => PNone) KGBuilder.empty_db "chunk" "f1" ∅ ∅
  = (8%nat, KGBuilder.mark_parsed KGBuilder.empty_db "f1", None)
  /\ Retriever.generate_community_information (fun _ _ => "no json")
       (fun _ => None) ("block", [], [])
     = (10%nat, (0, "", [], []))
  /\ Summariser.request_summary (fun _ _ => "no json") (fun _ => None)
       50 0 "excerpt"
     = (50%nat, None).
Proof.
  destruct (llm_retry_loops (fun _ => true) (fun _ _ => "no json")
              (fun _ => PNone) (fun _ => None)) as (Hkg & Hquery & Hsum).
  split; [|split].
  - by apply Hkg.
  - by apply Hquery.
  - by apply Hsum.
Defined.

End RetryFacts.

Module RAGSplitFacts.
Import Py RAGSplit.

Definition is_heading (line : string) : bool :=
  startswith line "# " || startswith line "## " || startswith line "### ".

(** The heading context survives a flush for size: the chunk written out
    and the chunk being continued carry the headings in force. *)
Lemma size_flush_keeps_headings max_chunk_size idx st line :
  is_heading line = false ->
  last st = 4 ->
  nonempty (cur_body st) = true ->
  max_chunk_size < str_len (cur_body st) + str_len (strip line) ->
  let st' := feed max_chunk_size idx st line in
  results st'
  = results st ++ [{| h1 := cur_h1 st; h2 := cur_h2 st; h3 := cur_h3 st;
                      body := cur_body st; ref := pages st |}]
  /\ cur_h1 st' = cur_h1 st /\ cur_h2 st' = cur_h2 st
  /\ cur_h3 st' = cur_h3 st /\ cur_body st' = strip line.
Proof.
  unfold is_heading. intros Hh Hlast Hbody Hlen.
  apply orb_false_elim in Hh as [Hh H3].
  apply orb_false_elim in Hh as [H1 H2].
  unfold feed. rewrite H1, H2, H3, Hlast, Hbody. cbn [Z.eqb Pos.eqb andb].
  replace (max_chunk_size <? _) with true by lia. done.
Qed.

Definition two_sections : string := "ab" +:+ newlines +:+ "cd".

(** Two sections of two characters each pass the test
    [len(body) + len(line) > max_chunk_size] for a budget of four and are
    joined by the separator into a body of six characters. *)
Theorem split_body_exceeds_budget :
  split [two_sections] 4
  = [{| h1 := ""; h2 := ""; h3 := ""; body := two_sections; ref := [0%nat] |}]
  /\ str_len two_sections = 6.
Proof. split; reflexivity. Qed.

(** A single section longer than the budget is emitted whole. *)
Example split_long_section :
  split ["abcdef"] 4
  = [{| h1 := ""; h2 := ""; h3 := ""; body := "abcdef"; ref := [0%nat] |}].
Proof. reflexivity. Qed.

(** When the test fires, the body is cut and the headings are repeated. *)
Example split_repeats_headings :
  split ["# T" +:+ newlines +:+ "abc" +:+ newlines +:+ "de"] 4
  = [{| h1 := "T"; h2 := ""; h3 := ""; body := "abc"; ref := [0%nat] |};
     {| h1 := "T"; h2 := ""; h3 := ""; body := "de"; ref := [0%nat] |}].
Proof. reflexivity. Qed.

End RAGSplitFacts.

Module LoaderFacts.
Import Py Loader.

Section LoadFacts.

Variable parse : path -> option (list string).
Variable absolute : path -> string.
Variable open_zip : path -> result unit.
Variable quoted_query : string -> world -> result bool.

(** A call with three arguments does not bind the five parameters. *)
Lemma load_file_three_args fuel a b c w :
  _load_file parse absolute open_zip quoted_query (S fuel) [a; b; c] w
  = (w, Raise TypeError).
Proof. cbn. by destruct b. Qed.

(** Loading a directory that has an entry ends in the [TypeError] of the
    first recursive call; nothing is inserted. *)
Lemma load_directory_raises fuel config arango elastic max_chunk_size
      name entry entries w :
  startswith name "~$" = false ->
  _load_file parse absolute open_zip quoted_query (S (S fuel))
    [config; PathObj (Dir name (entry :: entries)); arango; elastic;
     IntObj max_chunk_size] w
  = (w, Raise TypeError).
Proof.
  intros Hname. cbn [_load_file path_name]. rewrite Hname.
  cbn [for_each]. by destruct arango.
Qed.

(** Loading a [.zip] file ends in an exception and inserts nothing:
    [extracted_zip] hands the [TemporaryDirectory] object, not a path, to
    [extractall]. *)
Lemma load_zip_raises fuel config arango elastic max_chunk_size name w :
  startswith name "~$" = false ->
  exists e,
    _load_file parse absolute open_zip quoted_query (S fuel)
      [config; PathObj (File name ".zip"); arango; elastic;
       IntObj max_chunk_size] w
    = (w, Raise e)
    /\ (open_zip (File name ".zip") = Ok () -> e = TypeError).
Proof.
  intros Hname. cbn [_load_file path_name]. rewrite Hname.
  cbn [String.eqb Ascii.eqb Bool.eqb]. unfold extracted_zip.
  destruct (open_zip (File name ".zip")) as [[]|e].
  - exists TypeError. by cbn.
  - exists e. by split.
Qed.

End LoadFacts.

Definition empty_world : world :=
  {| files := []; index := []; next_uuid := 0 |}.

Definition parse_demo (p : path) : option (list string) := Some ["text"].

Definition absolute_demo (p : path) : string := "/data/" ++ path_name p.

Definition open_demo (p : path) : result unit := Ok ().

Definition query_demo (key : string) (w : world) : result bool := Ok false.

(** A directory with one text file: the file is not loaded. *)
Theorem load_directory_fails :
  _load_file parse_demo absolute_demo open_demo query_demo 5
    [Config; PathObj (Dir "docs" [File "a.txt" ".txt"]); ArangoClient;
     ElasticTuple; IntObj 4096] empty_world
  = (empty_world, Raise TypeError).
Proof. reflexivity. Qed.

Definition text_chunk_demo : RAGSplit.chunk :=
  {| RAGSplit.h1 := ""; RAGSplit.h2 := ""; RAGSplit.h3 := "";
     RAGSplit.body := "text"; RAGSplit.ref := [0%nat] |}.

(** The same file given directly is parsed, chunked and inserted into
    both stores. *)
Example load_file_directly :
  _load_file parse_demo absolute_demo open_demo query_demo 5
    [Config; PathObj (File "a.txt" ".txt"); ArangoClient; ElasticTuple;
     IntObj 4096] empty_world
  = ({| files := [(File "a.txt" ".txt", text_chunk_demo)];
        index := [(0%nat, (File "a.txt" ".txt", text_chunk_demo))];
        next_uuid := 1 |}, Ok ()).
Proof. reflexivity. Qed.

(** A file whose name starts with the lock-file prefix is ignored. *)
Example load_lock_file_ignored :
  _load_file parse_demo absolute_demo open_demo query_demo 5
    [Config; PathObj (File "~$a.txt" ".txt"); ArangoClient; ElasticTuple;
     IntObj 4096] empty_world
  = (empty_world, Ok ()).
Proof. reflexivity. Qed.

End LoaderFacts.

(** * Further properties of the modelled code *)

Module PdfPredictorEdge.
Import PdfPredictor PdfPredictorFacts.

Lemma sub_line_unchanged line : forall prior, sub_line prior line = line.
Proof. induction line as [|value rest IH]; intros prior; cbn; by f_equal. Qed.

(** [predictor] with predictor 11 (Sub) returns what predictor 10 (None)
    returns, on every input: the tag bytes are removed and the filtered
    bytes are passed through. *)
Theorem predictor_sub_like_none (data : bytes) (colors bits columns : Z) :
  predictor data 11 colors bits columns = predictor data 10 colors bits columns.
Proof.
  unfold predictor.
  destruct (negb (colors =? 1)); [done|]. destruct (negb (bits =? 8)); [done|].
  cbn [Z.eqb Pos.eqb]. destruct (columns <? 0); [done|]. cbv zeta.
  destruct (pop_last _) as [rows|e]; [|done]. cbn. do 2 f_equal.
  apply map_ext. intros r. apply sub_line_unchanged.
Qed.

(** The rows kept after [data_rows.pop()] are the chunks before the last
    one, and each of them has [columns] bytes. *)
Lemma removelast_map {A B} (f : A -> B) l :
  removelast (map f l) = map f (removelast l).
Proof.
  induction l as [|x [|y l] IH]; [done|done|].
  cbn [map removelast] in *. by rewrite IH.
Qed.

Lemma removelast_seq n : removelast (seq 0 n) = seq 0 (n - 1).
Proof.
  destruct n as [|n]; [done|].
  replace (S n - 1)%nat with n by lia.
  rewrite seq_S. cbn [Nat.add]. by rewrite removelast_last.
Qed.

Lemma popped_rows data c :
  (0 < c)%nat ->
  let padded := data ++ zero_bytes c in
  let n := ((length padded + S c - 1) / S c)%nat in
  pop_last (data_rows padded c)
  = Ok (map (fun k => (nth (k * S c) padded 0, slice_row padded (k * S c) c))
            (seq 0 (n - 1)))
  /\ forall k, (k < n - 1)%nat -> length (slice_row padded (k * S c) c) = c.
Proof.
  intros Hc padded n.
  assert (Hlen : length padded = (length data + c)%nat).
  { unfold padded, zero_bytes. by rewrite length_app, repeat_length. }
  assert (Hn : (n * S c <= length padded + c)%nat).
  { unfold n. replace (length padded + S c - 1)%nat
      with (length padded + c)%nat by lia.
    rewrite Nat.mul_comm. apply Nat.Div0.mul_div_le. }
  assert (Hn1 : (1 <= n)%nat).
  { unfold n. apply Nat.div_le_lower_bound; lia. }
  split.
  - unfold data_rows, range_step. fold n.
    rewrite map_map. unfold pop_last.
    destruct (map _ (seq 0 n)) eqn:E.
    + destruct n; [lia|]. by rewrite seq_S, map_app in E; destruct (map _ _) in E.
    + rewrite <- E. by rewrite removelast_map, removelast_seq.
  - intros k Hk. unfold slice_row.
    rewrite length_take, length_drop. nia.
Qed.

(** For a positive [/Columns] and predictor 10 to 13, [predictor] returns
    on every stream, whatever its length: the zero padding makes every row
    that is kept [columns] bytes long, so no row loop runs off a short
    row.  The output has [columns] bytes per kept row. *)
Theorem predictor_returns (data : bytes) (p columns : Z) :
  0 < columns -> 10 <= p <= 13 ->
  let c := Z.to_nat columns in
  exists out,
    predictor data p 1 8 columns = Ok out
    /\ length out = (c * ((length data + 2 * c) / S c - 1))%nat.
Proof.
  intros Hc Hp c.
  destruct (popped_rows data c ltac:(lia)) as [Hpop Hfull].
  set (padded := data ++ zero_bytes c) in *.
  set (n := ((length padded + S c - 1) / S c)%nat) in *.
  set (rows := map _ (seq 0 (n - 1))) in Hpop.
  assert (Hrows : rows_of_width c rows).
  { unfold rows_of_width, rows. apply Forall_map, Forall_forall.
    intros k Hk%elem_of_seq. cbn. apply Hfull. lia. }
  assert (Hcount : length rows = ((length data + 2 * c) / S c - 1)%nat).
  { unfold rows. rewrite length_map, length_seq. unfold n, padded, zero_bytes.
    rewrite length_app, repeat_length. do 2 f_equal. lia. }
  assert (Hconcat : forall out : list bytes,
            Forall (fun r => length r = c) out ->
            length (concat out) = (c * length out)%nat).
  { induction 1 as [|r out Hr _ IH]; cbn; [lia|].
    rewrite length_app, IH, Hr. lia. }
  assert (Hloop : forall step,
            (forall up line, length up = c -> length line = c ->
               exists r, step up line = Ok r /\ length r = c) ->
            exists out, fold_rows step (zero_bytes c) rows = Ok out
                        /\ length out = (c * length rows)%nat).
  { intros step Hstep. clear Hpop Hcount.
    assert (Hup : length (zero_bytes c) = c) by apply repeat_length.
    revert Hup. generalize (zero_bytes c).
    induction Hrows as [|[t line] rows Hline _ IH]; intros up Hup.
    - exists []. split; [done|]. cbn. lia.
    - destruct (Hstep up line Hup Hline) as (r & Hr & Hlen).
      destruct (IH r Hlen) as (out & Hout & Hl).
      exists (r ++ out). cbn [fold_rows]. rewrite Hr. cbn. rewrite Hout. cbn.
      split; [done|]. rewrite length_app, Hl, Hlen. lia. }
  rewrite <- Hcount.
  unfold predictor. cbn [Z.eqb Pos.eqb negb].
  replace (p =? 1) with false by lia. replace (p =? 2) with false by lia.
  replace (columns <? 0) with false by lia. cbv zeta. fold c padded.
  rewrite Hpop. cbn [mbind result_bind].
  assert (Hsnd : Forall (fun r => length r = c) (map snd rows)).
  { apply Forall_map. exact Hrows. }
  destruct (Z.eqb_spec p 10); [eexists; split; [done|]; rewrite Hconcat, length_map; done|].
  destruct (Z.eqb_spec p 11).
  { eexists; split; [done|]. rewrite Hconcat, length_map; [done|].
    apply Forall_map. eapply Forall_impl; [exact Hrows|].
    intros r Hr. cbn. by rewrite sub_line_unchanged. }
  destruct (Z.eqb_spec p 12).
  { apply Hloop. intros up line Hu Hl.
    destruct (up_line_spec c up line Hu Hl) as (r & ? & ? & _). eauto. }
  destruct (Z.eqb_spec p 13); [|lia].
  apply Hloop. intros up line Hu Hl.
  destruct (avg_line_spec c 0 up line Hu Hl) as (r & ? & ? & _). eauto.
Qed.

(** A stream of six bytes with three columns: the second row is cut
    short by the end of the stream and is completed with zeros. *)
Lemma predictor_returns_witness :
  exists out, predictor [2; 1; 2; 3; 2; 7] 12 1 8 3 = Ok out
              /\ length out = 6%nat.
Proof. apply (predictor_returns [2; 1; 2; 3; 2; 7] 12 3); lia. Defined.

End PdfPredictorEdge.

Module RAGSplitInvariants.
Import Py RAGSplit RAGSplitFacts.

(** The sections of all pages, in reading order. *)
Definition all_sections (data : list string) : list string :=
  page ← data; Py.split page newlines.

Lemma fold_feed_invariant (I : state -> Prop) max_chunk_size idx
      (keep : string -> Prop) :
  (forall st line, keep line -> I st -> I (feed max_chunk_size idx st line)) ->
  forall lines st, Forall keep lines -> I st ->
    I (fold_left (feed max_chunk_size idx) lines st).
Proof.
  intros Hstep lines. induction lines as [|line lines IH]; intros st Hk Hst.
  - done.
  - apply Forall_cons in Hk as [Hline Hk]. cbn. apply IH; auto.
Qed.

(** An invariant of the loop variables that every round keeps holds
    after all pages; a round may rely on the page index being in range
    and on the line being one of the sections. *)
Lemma feed_pages_invariant (I : state -> Prop) max_chunk_size
      (n : nat) (keep : string -> Prop) :
  (forall idx st line, (idx < n)%nat -> keep line -> I st ->
     I (feed max_chunk_size idx st line)) ->
  forall data idx st,
    (idx + length data <= n)%nat -> Forall keep (all_sections data) ->
    I st -> I (feed_pages max_chunk_size idx st data).
Proof.
  intros Hstep data. induction data as [|page data IH]; intros idx st Hn Hk Hst.
  - done.
  - cbn [feed_pages]. unfold all_sections in Hk. cbn in Hk.
    apply Forall_app in Hk as [Hpage Hk]. cbn in Hn.
    apply IH; [lia|done|].
    apply fold_feed_invariant with (keep := keep); [|done|done].
    intros st' line Hl Hst'. apply Hstep; [lia|done|done].
Qed.

(** Split one round into the branches of [feed]. *)
Ltac eqb_facts :=
  repeat match goal with
         | H : (_ =? _) = true |- _ => apply Z.eqb_eq in H
         | H : (_ =? _) = false |- _ => apply Z.eqb_neq in H
         | H : (_ <? _) = true |- _ => apply Z.ltb_lt in H
         | H : (_ <? _) = false |- _ => apply Z.ltb_ge in H
         | H : _ && _ = true |- _ => apply andb_true_iff in H as [? ?]
         end.

Ltac feed_cases :=
  unfold feed; repeat case_match; eqb_facts;
  cbn [cur_h1 cur_h2 cur_h3 cur_body pages last results].

(** Pages that hold only headings give no chunk: a heading is kept only
    as context of a body that follows it. *)
Theorem split_headings_only (data : list string) (max_chunk_size : Z) :
  Forall (fun line => is_heading line = true) (all_sections data) ->
  split data max_chunk_size = [].
Proof.
  intros Hh. unfold split.
  assert (H : last (feed_pages max_chunk_size 0 initial data) <> 4
              /\ results (feed_pages max_chunk_size 0 initial data) = []).
  { apply (feed_pages_invariant
             (fun st => last st <> 4 /\ results st = []) max_chunk_size
             (length data) (fun line => is_heading line = true));
      [|lia|done|done].
    intros idx st line _ Hline [Hlast Hres]. unfold is_heading in Hline.
    unfold feed.
    destruct (startswith line "# ");
      [destruct (Z.eqb_spec (last st) 1); cbn;
       destruct (Z.eqb_spec (last st) 4); done|].
    destruct (startswith line "## ");
      [destruct (Z.eqb_spec (last st) 2); cbn;
       destruct (Z.eqb_spec (last st) 4); done|].
    destruct (startswith line "### "); [|done].
    destruct (Z.eqb_spec (last st) 3); cbn;
      destruct (Z.eqb_spec (last st) 4); done. }
  destruct H as [Hlast Hres].
  by destruct (Z.eqb_spec (last (feed_pages max_chunk_size 0 initial data)) 4).
Qed.

Lemma split_headings_only_witness :
  split ["# Title" +:+ newlines +:+ "## Part"; "### Detail"] 4096 = [].
Proof.
  apply (split_headings_only
           ["# Title" +:+ newlines +:+ "## Part"; "### Detail"] 4096).
  repeat constructor.
Defined.

Lemma add_page_nonempty idx pages : add_page idx pages <> [].
Proof.
  unfold add_page. case_bool_decide as H; [|by destruct pages].
  intros ->. by apply not_elem_of_nil in H.
Qed.

Lemma emit_Forall (P : chunk -> Prop) st :
  Forall P (results st) ->
  P {| h1 := cur_h1 st; h2 := cur_h2 st; h3 := cur_h3 st;
       body := cur_body st; ref := pages st |} ->
  Forall P (emit st).
Proof. intros Hres Hc. unfold emit. apply Forall_app. by repeat constructor. Qed.

(** An invariant on the chunk being built ([cur] holds when a body is
    open) and on the chunks written out. *)
Lemma split_Forall (P : chunk -> Prop) (cur : state -> Prop)
      data max_chunk_size :
  cur (feed_pages max_chunk_size 0 initial data)
  /\ Forall P (results (feed_pages max_chunk_size 0 initial data)) ->
  (forall st, cur st -> last st = 4 ->
     P {| h1 := cur_h1 st; h2 := cur_h2 st; h3 := cur_h3 st;
          body := cur_body st; ref := pages st |}) ->
  Forall P (split data max_chunk_size).
Proof.
  intros [Hcur Hres] Hemit. unfold split.
  destruct (Z.eqb_spec (last (feed_pages max_chunk_size 0 initial data)) 4);
    [|done]. apply emit_Forall; auto.
Qed.

(** Every chunk refers to at least one page, so its page hint is
    defined. *)
Theorem split_page_hint (data : list string) (max_chunk_size : Z) (c : chunk) :
  c ∈ split data max_chunk_size -> exists hint, PageHint c = Ok hint.
Proof.
  assert (H : Forall (fun c => ref c <> []) (split data max_chunk_size)).
  { apply split_Forall
      with (cur := fun st => last st = 4 -> pages st <> []); [|auto].
    apply (feed_pages_invariant
             (fun st => (last st = 4 -> pages st <> [])
                        /\ Forall (fun c => ref c <> []) (results st))
             max_chunk_size (length data) (fun _ => True));
      [|lia|by apply Forall_forall|by split; [|constructor]].
    intros idx st line _ _ [Hcur Hres].
    feed_cases; (split; [intros; first [lia | apply add_page_nonempty | auto]|]);
      first [done | apply emit_Forall; cbn; auto]. }
  intros Hc. rewrite Forall_forall in H. specialize (H c Hc).
  unfold PageHint. destruct (ref c) as [|p [|q rest]]; [done|eauto|eauto].
Qed.

Lemma split_page_hint_witness :
  exists hint,
    PageHint {| h1 := ""; h2 := ""; h3 := ""; body := "text";
                ref := [0%nat] |} = Ok hint.
Proof.
  apply (split_page_hint ["text"] 4096). vm_compute. apply list_elem_of_here.
Defined.

Lemma length_append (a b : string) :
  String.length (a +:+ b) = (String.length a + String.length b)%nat.
Proof. induction a as [|x a IH]; simpl; [done|]. by rewrite <- IH. Qed.

(** The bound that [split] keeps: a body is a single section of the
    input (stripped), whatever its length, or it has at most
    [max_chunk_size + 2] characters. *)
Theorem split_body_bound (data : list string) (max_chunk_size : Z) (c : chunk) :
  c ∈ split data max_chunk_size ->
  str_len (body c) <= max_chunk_size + 2
  \/ exists line, line ∈ all_sections data /\ body c = strip line.
Proof.
  set (B := fun b : string =>
              str_len b <= max_chunk_size + 2
              \/ exists line, line ∈ all_sections data /\ b = strip line).
  assert (H : Forall (fun c => B (body c)) (split data max_chunk_size)).
  { apply split_Forall
      with (cur := fun st => last st = 4 -> B (cur_body st)); [|auto].
    apply (feed_pages_invariant
             (fun st => (last st = 4 -> B (cur_body st))
                        /\ Forall (fun c => B (body c)) (results st))
             max_chunk_size (length data)
             (fun line => line ∈ all_sections data));
      [|lia|by apply Forall_forall|by split; [|constructor]].
    intros idx st line _ Hline [Hcur Hres].
    assert (Hstrip : B (strip line)) by (right; eauto).
    feed_cases;
      (split; [intros; first [lia | done | auto]
              |first [done | apply emit_Forall; cbn; auto]]).
    left. match goal with H : _ && _ = false |- _ =>
      apply andb_false_iff in H as [H|H]; [congruence|] end.
    eqb_facts. unfold str_len in *. rewrite !length_append. cbn. lia. }
  intros Hc. rewrite Forall_forall in H. apply (H c Hc).
Qed.

(** The pages a chunk refers to are indices of pages of the input. *)
Theorem split_ref_in_range (data : list string) (max_chunk_size : Z) (c : chunk) :
  c ∈ split data max_chunk_size ->
  Forall (fun page => (page < length data)%nat) (ref c).
Proof.
  set (R := Forall (fun page => (page < length data)%nat)).
  assert (Hadd : forall idx pages,
            (idx < length data)%nat -> R pages -> R (add_page idx pages)).
  { intros idx pages Hidx Hp. unfold add_page. case_bool_decide; [done|].
    apply Forall_app. by repeat constructor. }
  assert (H : Forall (fun c => R (ref c)) (split data max_chunk_size)).
  { apply split_Forall with (cur := fun st => R (pages st)); [|auto].
    apply (feed_pages_invariant
             (fun st => R (pages st) /\ Forall (fun c => R (ref c)) (results st))
             max_chunk_size (length data) (fun _ => True));
      [|lia|by apply Forall_forall|by split; constructor].
    intros idx st line Hidx _ [Hcur Hres].
    feed_cases;
      (split; [first [done | by constructor | apply Hadd; [done|];
                      first [done | by constructor]]
              |first [done | apply emit_Forall; cbn; auto]]). }
  intros Hc. rewrite Forall_forall in H. apply (H c Hc).
Qed.

Definition joined_chunk : chunk :=
  {| h1 := ""; h2 := ""; h3 := ""; body := two_sections; ref := [0%nat] |}.

Lemma split_body_bound_witness :
  str_len (body joined_chunk) <= 4 + 2
  \/ exists line, line ∈ all_sections [two_sections]
                  /\ body joined_chunk = strip line.
Proof.
  apply (split_body_bound [two_sections] 4 joined_chunk).
  vm_compute. apply list_elem_of_here.
Defined.

Lemma split_ref_in_range_witness :
  Forall (fun page => (page < 1)%nat) (ref joined_chunk).
Proof.
  apply (split_ref_in_range [two_sections] 4 joined_chunk).
  vm_compute. apply list_elem_of_here.
Defined.

End RAGSplitInvariants.

Module KGBuilderInvariants.
Import Py KGBuilder KGBuilderFacts.

Lemma allowed_char_not_space a : allowed_char a = true -> a <> " "%char.
Proof. intros H ->. by vm_compute in H. Qed.

Lemma replace_space_allowed s :
  Forall (fun a => allowed_char a = true) (list_ascii_of_string s) ->
  replace_char " " "_" s = s.
Proof.
  induction s as [|a s IH]; cbn; [done|]. intros [Ha Hs]%Forall_cons.
  rewrite IH by done. apply allowed_char_not_space in Ha.
  by destruct (Ascii.eqb_spec a " ").
Qed.

Lemma filter_allowed s :
  Forall (fun a => allowed_char a = true) (list_ascii_of_string s) ->
  filter_str allowed_char s = s.
Proof.
  induction s as [|a s IH]; cbn; [done|]. intros [Ha Hs]%Forall_cons.
  by rewrite Ha, IH.
Qed.

(** Cleaning a cleaned string changes nothing: node keys and labels
    that went through [_insert_relations] once are stable. *)
Theorem clean_idempotent (s : string) : clean (clean s) = clean s.
Proof.
  unfold clean at 1.
  rewrite replace_space_allowed, filter_allowed; auto using clean_allowed.
Qed.

(** [_update_source_dict] adds the counters of [src] to those of
    [origin], key by key, and keeps the other keys of [origin]. *)
Theorem update_source_dict_lookup (origin src : gmap string Z) (k : string) :
  _update_source_dict origin src !! k
  = match src !! k with
    | Some count => Some (default 0 (origin !! k) + count)
    | None => origin !! k
    end.
Proof.
  unfold _update_source_dict.
  apply (map_fold_weak_ind
           (fun (r : gmap string Z) (m : gmap string Z) =>
              r !! k = match m !! k with
                       | Some count => Some (default 0 (origin !! k) + count)
                       | None => origin !! k
                       end)).
  - by rewrite lookup_empty.
  - intros i x m r Hi IH. destruct (decide (i = k)) as [->|Hne].
    + rewrite !lookup_insert_eq. rewrite Hi in IH. by rewrite IH.
    + by rewrite !lookup_insert_ne.
Qed.

Section BuilderInvariants.

Variable key_accepted : string -> bool.
Variable llm_generate : string -> nat -> string.
Variable _try_get_relations : string -> pyval.

Lemma upsert_node_spec db key sr s d :
  (is_Some (Node db !! key) \/ key_accepted key = true) ->
  exists db', upsert_node key_accepted db key sr s d = Some db'
              /\ Relation db' = Relation db
              /\ is_graph db' = is_graph db
              /\ is_Some (Node db' !! key)
              /\ (forall k, is_Some (Node db !! k) -> is_Some (Node db' !! k)).
Proof.
  intros Hk. unfold upsert_node.
  destruct (Node db !! key) as [node|] eqn:E.
  - eexists. split; [done|]. cbn. repeat split.
    + by rewrite lookup_insert_eq.
    + intros k Hin. rewrite lookup_insert. by case_decide.
  - destruct Hk as [[? Hx]| ->]; [done|].
    eexists. split; [done|]. cbn. repeat split.
    + by rewrite lookup_insert_eq.
    + intros k Hin. rewrite lookup_insert. by case_decide.
Qed.

Lemma upsert_node_grows db key sr s d db' :
  upsert_node key_accepted db key sr s d = Some db' ->
  Relation db' = Relation db /\ is_graph db' = is_graph db
  /\ is_Some (Node db' !! key)
  /\ (forall k, is_Some (Node db !! k) -> is_Some (Node db' !! k)).
Proof.
  intros H.
  destruct (upsert_node_spec db key sr s d) as (db2 & H2 & ?).
  - unfold upsert_node in H. destruct (Node db !! key); [by left|].
    destruct (key_accepted key); [by right|done].
  - rewrite H in H2. by injection H2 as <-.
Qed.

(** The relation of a response whose three fields are strings. *)
Definition triple (f t r : string) : pyval :=
  PDict [(PStr "From", PStr f); (PStr "To", PStr t); (PStr "Relation", PStr r)].

Lemma upsert_edge_lookup db from to rel :
  Relation (upsert_edge db from to rel)
  = <[(from, to, rel) := default 0 (Relation db !! (from, to, rel)) + 1]>
      (Relation db).
Proof. unfold upsert_edge. cbn. by destruct (Relation db !! _). Qed.

Lemma insert_triple db f t r sr s d :
  clean f <> "" -> clean t <> "" -> clean r <> "" -> clean f <> clean t ->
  key_accepted (clean f) = true -> key_accepted (clean t) = true ->
  exists db', insert_relation key_accepted db (triple f t r) sr s d = Ok db'
    /\ Relation db'
       = <[(clean f, clean t, clean r) :=
             default 0 (Relation db !! (clean f, clean t, clean r)) + 1]>
           (Relation db).
Proof.
  intros Hf Ht Hr Hne Haf Hat.
  unfold insert_relation, triple. cbn.
  assert (E : forall x, x <> "" -> str_empty x = false) by (by intros []).
  rewrite !E by done. cbn. destruct (String.eqb_spec (clean f) (clean t)); [done|].
  eexists. split; [done|]. unfold persist.
  destruct (upsert_node_spec db (clean f) sr s d) as (db1 & -> & R1 & _);
    [by right|].
  destruct (upsert_node_spec db1 (clean t) sr s d) as (db2 & -> & R2 & _);
    [by right|].
  by rewrite upsert_edge_lookup, R2, R1.
Qed.

(** The weight of an edge counts how often its relation was seen: after
    the same relation has been inserted [n + 1] times the weight of its
    edge has grown by [n + 1], and no exception has escaped. *)
Theorem repeated_relation_weight (n : nat) (db : arango) (f t r : string)
        (src_ref src doc : gmap string Z) :
  clean f <> "" -> clean t <> "" -> clean r <> "" -> clean f <> clean t ->
  key_accepted (clean f) = true -> key_accepted (clean t) = true ->
  let out := _insert_relations key_accepted (replicate (S n) (triple f t r))
               src_ref src doc db in
  out.2 = None
  /\ Relation out.1 !! (clean f, clean t, clean r)
     = Some (default 0 (Relation db !! (clean f, clean t, clean r))
             + Z.of_nat (S n)).
Proof.
  intros Hf Ht Hr Hne Haf Hat. revert db.
  assert (Hcons : forall db rest,
            exists db',
              _insert_relations key_accepted (triple f t r :: rest)
                src_ref src doc db
              = _insert_relations key_accepted rest src_ref src doc db'
              /\ Relation db' !! (clean f, clean t, clean r)
                 = Some (default 0 (Relation db !! (clean f, clean t, clean r))
                         + 1)).
  { intros db rest.
    destruct (insert_triple db f t r src_ref src doc) as (db' & E & Hrel);
      try done.
    exists db'. cbn [_insert_relations]. rewrite E.
    split; [done|]. by rewrite Hrel, lookup_insert_eq. }
  induction n as [|n IH]; intros db out; subst out.
  - destruct (Hcons db []) as (db' & E & Hw).
    change (replicate 1 (triple f t r)) with [triple f t r].
    rewrite E. by split.
  - destruct (Hcons db (replicate (S n) (triple f t r))) as (db' & E & Hw).
    change (replicate (S (S n)) (triple f t r))
      with (triple f t r :: replicate (S n) (triple f t r)).
    rewrite E. destruct (IH db') as [Herr Hw']. split; [done|].
    rewrite Hw', Hw. cbn [default]. unfold id. f_equal. lia.
Qed.

End BuilderInvariants.

Lemma repeated_relation_weight_witness :
  Relation (_insert_relations (fun _ => true)
              (replicate 2 (triple "A" "B" "r")) ∅ ∅ ∅ empty_db).1
    !! ("A", "B", "r") = Some 2.
Proof.
  apply (repeated_relation_weight (fun _ => true) 1 empty_db "A" "B" "r"
           ∅ ∅ ∅); done.
Defined.

End KGBuilderInvariants.

Module KGBuilderStore.
Import Py KGBuilder KGBuilderFacts KGBuilderInvariants.

(** Every [Relation] edge joins two documents of the [Node] collection. *)
Definition edges_have_nodes (db : arango) : Prop :=
  forall from to rel weight,
    Relation db !! (from, to, rel) = Some weight ->
    is_Some (Node db !! from) /\ is_Some (Node db !! to).

(** [db'] holds what [db] holds: no node is lost, no edge is lost and no
    weight has gone down. *)
Definition grows (db db' : arango) : Prop :=
  (forall key, is_Some (Node db !! key) -> is_Some (Node db' !! key))
  /\ (forall edge weight,
        Relation db !! edge = Some weight ->
        exists weight', Relation db' !! edge = Some weight'
                        /\ weight <= weight').

Lemma grows_refl db : grows db db.
Proof. split; [done|]. intros edge weight H. exists weight. split; [done|lia]. Qed.

Lemma grows_trans db1 db2 db3 : grows db1 db2 -> grows db2 db3 -> grows db1 db3.
Proof.
  intros [N1 R1] [N2 R2]. split; [auto|].
  intros edge w H. destruct (R1 _ _ H) as (w2 & H2 & ?).
  destruct (R2 _ _ H2) as (w3 & H3 & ?). exists w3. split; [done|lia].
Qed.

Section Store.

Variable key_accepted : string -> bool.
Variable llm_generate : string -> nat -> string.
Variable _try_get_relations : string -> pyval.

Lemma upsert_node_steps db key sr s d db' :
  upsert_node key_accepted db key sr s d = Some db' ->
  grows db db' /\ is_graph db' = is_graph db
  /\ Relation db' = Relation db /\ is_Some (Node db' !! key).
Proof.
  intros H. destruct (upsert_node_grows key_accepted db key sr s d db' H)
    as (HR & HG & Hk & HN).
  repeat split; try done.
  intros edge w Hw. exists w. rewrite HR. split; [done|lia].
Qed.

Lemma upsert_edge_grows db from to rel :
  grows db (upsert_edge db from to rel).
Proof.
  split; [done|]. intros edge w Hw. rewrite upsert_edge_lookup.
  destruct (decide ((from, to, rel) = edge)) as [<-|Hne].
  - rewrite lookup_insert_eq, Hw. eexists. split; [done|]. cbn. unfold id. lia.
  - rewrite lookup_insert_ne by done. exists w. split; [done|lia].
Qed.

Lemma persist_steps db from to rel sr s d :
  let db' := persist key_accepted db from to rel sr s d in
  grows db db' /\ is_graph db' = is_graph db
  /\ (edges_have_nodes db -> edges_have_nodes db').
Proof.
  unfold persist.
  destruct (upsert_node _ db from _ _ _) as [db1|] eqn:E1;
    [|by split; [apply grows_refl|]].
  apply upsert_node_steps in E1 as (G1 & I1 & R1 & K1).
  assert (H1 : edges_have_nodes db -> edges_have_nodes db1).
  { intros H f t r w Hw. rewrite R1 in Hw. destruct (H _ _ _ _ Hw).
    split; by apply G1. }
  destruct (upsert_node _ db1 to _ _ _) as [db2|] eqn:E2; [|by split; [|split]].
  apply upsert_node_steps in E2 as (G2 & I2 & R2 & K2).
  split; [|split].
  - apply (grows_trans db db1); [done|]. eapply grows_trans; [done|].
    apply upsert_edge_grows.
  - cbn. congruence.
  - intros H f t r w. rewrite upsert_edge_lookup. cbn [Node upsert_edge].
    rewrite lookup_insert. case_decide as E.
    + injection E as <- <- <-. intros _. split; [by apply G2|done].
    + rewrite R2. intros Hw. destruct (H1 H _ _ _ _ Hw). split; by apply G2.
Qed.

Lemma insert_relation_steps db relation sr s d db' :
  insert_relation key_accepted db relation sr s d = Ok db' ->
  grows db db' /\ is_graph db' = is_graph db
  /\ (edges_have_nodes db -> edges_have_nodes db').
Proof.
  assert (Hsame : grows db db /\ is_graph db = is_graph db
                  /\ (edges_have_nodes db -> edges_have_nodes db))
    by (by split; [apply grows_refl|]).
  unfold insert_relation.
  destruct relation as [| | | | |?|dict]; try by intros [= <-].
  destruct (dict_get dict "From") as [f|]; [|by intros [= <-]].
  destruct (dict_get dict "To") as [t|]; [|by intros [= <-]].
  destruct (dict_get dict "Relation") as [r|]; [|by intros [= <-]].
  destruct (clean_field f) as [from|]; [|done].
  destruct (clean_field t) as [to|]; [|done].
  destruct (clean_field r) as [rel|]; [|done]. cbn.
  destruct (_ || _); [by intros [= <-]|].
  destruct (String.eqb from to); intros [= <-]; [done|].
  apply persist_steps.
Qed.

Lemma insert_relations_steps relations sr s d : forall db,
  let out := _insert_relations key_accepted relations sr s d db in
  grows db out.1 /\ is_graph out.1 = is_graph db
  /\ (edges_have_nodes db -> edges_have_nodes out.1).
Proof.
  induction relations as [|relation rest IH]; intros db.
  - by split; [apply grows_refl|].
  - cbn [_insert_relations].
    destruct (insert_relation _ db relation _ _ _) as [db'|e] eqn:E;
      [|by split; [apply grows_refl|]].
    apply insert_relation_steps in E as (G & I & H).
    destruct (IH db') as (G' & I' & H'). cbn zeta in *.
    split; [|split].
    + apply (grows_trans db db'); done.
    + congruence.
    + auto.
Qed.

(** Referential integrity: if every edge of the store joins two existing
    nodes, the same holds after [_insert_relations], whether it finishes
    or is ended by an exception. *)
Theorem insert_relations_edges_have_nodes
    (relations : list pyval) (src_ref src doc : gmap string Z) (db : arango) :
  edges_have_nodes db ->
  edges_have_nodes
    (_insert_relations key_accepted relations src_ref src doc db).1.
Proof. apply insert_relations_steps. Qed.

(** The knowledge graph only grows: [_insert_relations] keeps every
    node, keeps every edge, and never lowers a weight. *)
Theorem insert_relations_grows
    (relations : list pyval) (src_ref src doc : gmap string Z) (db : arango) :
  grows db (_insert_relations key_accepted relations src_ref src doc db).1.
Proof. apply insert_relations_steps. Qed.

(** [generate_ner_results] marks the file as parsed exactly when no
    exception escapes: it is marked after eight unusable answers and
    after a completed insertion, and an exception raised while inserting
    (a field that is not a string) leaves the flags as they were, so the
    file is picked up again by the next run. *)
Theorem ner_results_marking (db : arango) (content file_key : string)
        (src doc : gmap string Z) :
  let out := generate_ner_results key_accepted llm_generate _try_get_relations
               db content file_key src doc in
  match out.2 with
  | None => is_graph out.1.2 = <[file_key := true]> (is_graph db)
  | Some _ => is_graph out.1.2 = is_graph db
  end.
Proof.
  unfold generate_ner_results.
  destruct (ner_attempts _ _ _ _ _) as [calls [relations|]]; [|done].
  pose proof (insert_relations_steps relations
                (<["_total" := 1]> {[file_key := 1]}) src doc db) as (_ & I & _).
  destruct (_insert_relations _ _ _ _ _ _) as [db' [e|]]; cbn in *; congruence.
Qed.

End Store.

Lemma insert_relations_edges_have_nodes_witness :
  edges_have_nodes
    (_insert_relations (fun _ => true) demo_relations ∅ ∅ ∅ empty_db).1.
Proof.
  apply (insert_relations_edges_have_nodes (fun _ => true) demo_relations
           ∅ ∅ ∅ empty_db).
  intros f t r w. cbn. by rewrite lookup_empty.
Defined.

End KGBuilderStore.

Module SummariserChecks.
Import Py Summariser.




End SummariserChecks.

Module RetrieverBounds.
Import Py Retriever RetrieverFacts.

Definition block_text (b : block) : string := b.1.1.

(** A text that fits the budget or is the content of one community. *)
Definition fits (communities : list community_node) (text : string) : Prop :=
  Retriever.str_len text < 4096
  \/ exists c, c ∈ communities /\ text = com_content c.

Lemma str_len_append (a b : string) :
  Retriever.str_len (a +:+ b) = Retriever.str_len a + Retriever.str_len b.
Proof.
  unfold Retriever.str_len. induction a as [|x a IH]; simpl; [done|]. lia.
Qed.

Lemma stitch_step_fits communities st c :
  c ∈ communities ->
  current_len st = Retriever.str_len (current_information st) ->
  fits communities (current_information st) ->
  Forall (fun b => fits communities (block_text b)) (informations st) ->
  let st' := stitch_step st c in
  current_len st' = Retriever.str_len (current_information st')
  /\ fits communities (current_information st')
  /\ Forall (fun b => fits communities (block_text b)) (informations st').
Proof.
  intros Hc Hlen Hcur Hblocks. unfold stitch_step.
  destruct (Z.leb_spec 4096
              (current_len st + (Retriever.str_len (com_content c) + 1)));
    cbn [current_len current_information informations].
  - split; [done|]. split; [right; eauto|].
    apply Forall_app. split; [done|]. constructor; [exact Hcur|constructor].
  - assert (E : Retriever.str_len
                  (current_information st +:+ String "010" (com_content c))
                = current_len st + (Retriever.str_len (com_content c) + 1)).
    { rewrite str_len_append, Hlen. unfold Retriever.str_len. cbn [String.length].
      lia. }
    split; [done|]. split; [|done]. left. lia.
Qed.

(** The information blocks GraphRAG sends to the LLM: each is shorter
    than 4096 characters or is the content of a single community (which is
    passed on whole, however long it is). *)
Theorem stitch_blocks_fit (communities : list community_node) (b : block) :
  b ∈ stitch communities ->
  Retriever.str_len (block_text b) < 4096
  \/ exists c, c ∈ communities /\ block_text b = com_content c.
Proof.
  unfold stitch.
  set (init := {| informations := []; current_source := [];
                  current_document := []; current_len := 0;
                  current_information := "" |}).
  assert (H : forall cs st,
            Forall (fun c => c ∈ communities) cs ->
            current_len st = Retriever.str_len (current_information st) ->
            fits communities (current_information st) ->
            Forall (fun b => fits communities (block_text b)) (informations st) ->
            let st' := fold_left stitch_step cs st in
            fits communities (current_information st')
            /\ Forall (fun b => fits communities (block_text b))
                      (informations st')).
  { induction cs as [|c cs IH]; intros st Hcs Hlen Hcur Hb; [done|].
    apply Forall_cons in Hcs as [Hc Hcs]. cbn [fold_left].
    destruct (stitch_step_fits communities st c Hc Hlen Hcur Hb)
      as (? & ? & ?). by apply IH. }
  destruct (H (rev communities) init) as [Hcur Hb]; try done.
  - apply Forall_forall. intros c Hc. apply list_elem_of_In. apply list_elem_of_In, in_rev in Hc. exact Hc.
  - left. by vm_compute.
  - intros Hin. apply elem_of_app in Hin as [Hin|Hin].
    + rewrite Forall_forall in Hb. by apply Hb.
    + apply list_elem_of_singleton in Hin as ->. exact Hcur.
Qed.

Lemma stitch_blocks_fit_witness :
  let c := {| com_content := "water"; com_source := []; com_document := [] |} in
  Retriever.str_len (block_text (String "010" "water", [], [])) < 4096
  \/ exists c', c' ∈ [c]
                /\ block_text (String "010" "water", [], []) = com_content c'.
Proof.
  intros c. apply (stitch_blocks_fit [c]). vm_compute. apply list_elem_of_here.
Defined.

Section Bounds.

Variable repr_keys : list string -> string.
Variable knn_search : Z -> Q -> list vector_hit.
Variable file_by_key : string -> option file_node.
Variable llm_generate : string -> nat -> string.
Variable py_eval : string -> option pyval.
Variable communities_of_degree : Z -> list community_node.
Variable shuffle : list community_node -> list community_node.

Lemma rank_length cutoff max_matches infos : forall results,
  Z.of_nat (length results) <= max_matches ->
  Z.of_nat (length (rank repr_keys cutoff max_matches infos results))
  <= max_matches.
Proof.
  induction infos as [|i infos IH]; intros results Hlen; cbn [rank]; [done|].
  destruct (i.1.1.1 <? cutoff); [done|]. apply IH.
  destruct (Z.ltb_spec (Z.of_nat (length results)) max_matches); [|done].
  rewrite length_app. cbn. lia.
Qed.

Lemma fetch_files_length refs : forall max_matches l,
  1 <= max_matches ->
  fetch_files repr_keys file_by_key refs max_matches = Ok l ->
  Z.of_nat (length l) <= max_matches.
Proof.
  induction refs as [|[k v] refs IH]; intros max_matches l Hm; cbn [fetch_files].
  - intros [= <-]. cbn. lia.
  - destruct (file_by_key k); [|done].
    destruct (Z.eqb_spec (max_matches - 1) 0); [intros [= <-]; cbn; lia|].
    destruct (fetch_files _ _ refs (max_matches - 1)) as [more|] eqn:E; [|done].
    cbn. intros [= <-]. apply IH in E; [|lia]. cbn [length]. lia.
Qed.

Lemma or_no_documents_length results m :
  1 <= m -> Z.of_nat (length results) <= m ->
  Z.of_nat (length (or_no_documents results)) <= m.
Proof. destruct results; cbn; lia. Qed.

Lemma clamp_max_matches_pos m : 1 <= clamp_max_matches m.
Proof. destruct m; cbn; lia. Qed.

(** GraphRAG and GARAG never return more than [max(1, max_matches)]
    records (10 when [max_matches] is [None]). *)
Theorem at_most_max_matches
    (max_matches community_degree icut : option Z) (qcut : option Q) :
  Z.of_nat (length (_graph_rag_retrieve repr_keys llm_generate py_eval
                      communities_of_degree shuffle
                      max_matches community_degree icut))
  <= clamp_max_matches max_matches
  /\ forall l,
       _garag_retrieve repr_keys knn_search file_by_key max_matches qcut = Ok l ->
       Z.of_nat (length l) <= clamp_max_matches max_matches.
Proof.
  pose proof (clamp_max_matches_pos max_matches) as Hm. split.
  - unfold _graph_rag_retrieve. cbv zeta.
    apply or_no_documents_length; [done|]. apply rank_length. cbn. lia.
  - intros l. unfold _garag_retrieve. cbv zeta.
    destruct (accumulate _ _ _) as [refs|]; [|done]. cbn.
    destruct (fetch_files _ _ _ _) as [results|] eqn:E; [|done]. cbn.
    intros [= <-]. apply or_no_documents_length; [done|].
    by apply fetch_files_length in E.
Qed.

End Bounds.

End RetrieverBounds.

Module LoaderEdge.
Import Py Loader LoaderFacts.

Section LoadEdge.

Variable parse : path -> option (list string).
Variable absolute : path -> string.
Variable open_zip : path -> result unit.
Variable quoted_query : string -> world -> result bool.

Definition load (fuel : nat) (arango_client elastic_tuple : pyobj) (p : path)
           (max_chunk_size : Z) (w : world) : world * result unit :=
  _load_file parse absolute open_zip quoted_query fuel
    [Config; PathObj p; arango_client; elastic_tuple; IntObj max_chunk_size] w.

(** With a graph store, every chunk that is stored becomes a vertex of
    the [File] collection. *)
Lemma store_chunks_files file_path elastic chunks :
  forall w w1,
    for_each (store_chunk file_path ArangoClient elastic) chunks w
    = (w1, Ok ()) ->
    files w1 = files w ++ map (fun c => (file_path, c)) chunks.
Proof.
  induction chunks as [|c chunks IH]; intros w w1.
  - cbn. intros [= <-]. by rewrite app_nil_r.
  - cbn [for_each map].
    destruct (store_chunk file_path ArangoClient elastic c w) as [w' [[]|e]]
      eqn:Hstore; [|done].
    intros Hrest. apply IH in Hrest as ->.
    assert (files w' = files w ++ [(file_path, c)]) as ->.
    { unfold store_chunk in Hstore. cbn [is_true] in Hstore.
      destruct (is_true elastic); [destruct elastic|];
        by injection Hstore as <-. }
    by rewrite <- app_assoc.
Qed.

(** Loading is idempotent on files when a graph store is given: once a
    file (not an archive) has been loaded without an exception, loading
    it again changes nothing, so a second run over the same file inserts
    no chunk twice. *)
Theorem load_file_twice (fuel : nat) (elastic_tuple : pyobj)
        (name suffix : string) (max_chunk_size : Z) (w w1 : world) :
  suffix <> ".zip" ->
  contains (absolute (File name suffix)) "'" = false ->
  load fuel ArangoClient elastic_tuple (File name suffix) max_chunk_size w
  = (w1, Ok ()) ->
  load fuel ArangoClient elastic_tuple (File name suffix) max_chunk_size w1
  = (w1, Ok ()).
Proof.
  intros Hzip Hquote. unfold load.
  destruct fuel as [|fuel]; [by intros [= <-]|].
  cbn [_load_file path_name].
  destruct (startswith name "~$"); [by intros [= <-]|].
  destruct (String.eqb_spec suffix ".zip"); [done|].
  destruct (bool_decide (suffix ∈ _FILE_PARSERS)); [|by intros [= <-]].
  unfold already_loaded, file_present. cbn [is_true]. rewrite Hquote.
  case_bool_decide as Hin; [intros [= <-]; by rewrite bool_decide_eq_true_2|].
  destruct (parse (File name suffix)) as [data|]; [|done].
  destruct (RAGSplit.split data max_chunk_size) as [|c chunks] eqn:Hsplit.
  - cbn. intros [= <-]. by rewrite bool_decide_eq_false_2.
  - intros Hstore. rewrite bool_decide_eq_true_2; [done|].
    rewrite (store_chunks_files _ _ _ _ _ Hstore).
    rewrite map_app. apply elem_of_app. right. cbn. apply list_elem_of_here.
Qed.

(** Without a graph store there is no check: the chunks of a file
    are indexed by every call. *)
Lemma index_chunks file_path arango chunks :
  is_true arango = false ->
  forall w,
    exists w1,
      for_each (store_chunk file_path arango ElasticTuple) chunks w
      = (w1, Ok ())
      /\ files w1 = files w
      /\ map snd (index w1)
         = map snd (index w) ++ map (fun c => (file_path, c)) chunks.
Proof.
  intros Hnone. induction chunks as [|c chunks IH]; intros w.
  - exists w. cbn. by rewrite app_nil_r.
  - cbn [for_each]. unfold store_chunk at 1. rewrite Hnone. cbn [is_true].
    destruct (IH (index_chunk file_path c w)) as (w1 & -> & Hf & Hi).
    exists w1. split; [done|]. split; [done|].
    rewrite Hi. cbn [index_chunk index map]. rewrite map_app.
    by rewrite <- app_assoc.
Qed.

(** When no graph store is given (the vector-only indexer), the check for
    a file already loaded is skipped: loading a file a second time
    indexes every chunk again. *)
Theorem load_file_twice_reindexes (fuel : nat) (arango_client : pyobj)
        (name suffix : string) (data : list string) (max_chunk_size : Z)
        (w : world) :
  is_true arango_client = false ->
  startswith name "~$" = false ->
  suffix ∈ _FILE_PARSERS ->
  parse (File name suffix) = Some data ->
  let chunks := RAGSplit.split data max_chunk_size in
  let docs := map (fun c => (File name suffix, c)) chunks in
  exists w1 w2,
    load (S fuel) arango_client ElasticTuple (File name suffix)
         max_chunk_size w = (w1, Ok ())
    /\ load (S fuel) arango_client ElasticTuple (File name suffix)
            max_chunk_size w1 = (w2, Ok ())
    /\ map snd (index w2) = map snd (index w) ++ docs ++ docs.
Proof.
  intros Hnone Hname Hsuffix Hparse chunks docs.
  assert (Hload : forall w0, exists w',
             load (S fuel) arango_client ElasticTuple (File name suffix)
                  max_chunk_size w0 = (w', Ok ())
             /\ map snd (index w') = map snd (index w0) ++ docs).
  { intros w0. unfold load. cbn [_load_file path_name]. rewrite Hname.
    destruct (String.eqb_spec suffix ".zip") as [->|_].
    { exfalso. revert Hsuffix. unfold _FILE_PARSERS.
      rewrite !elem_of_cons, elem_of_nil. naive_solver. }
    rewrite bool_decide_eq_true_2 by done.
    unfold already_loaded. rewrite Hnone, Hparse. fold chunks.
    destruct (index_chunks (File name suffix) arango_client chunks Hnone w0)
      as (w' & -> & _ & Hi).
    by exists w'. }
  destruct (Hload w) as (w1 & H1 & Hi1).
  destruct (Hload w1) as (w2 & H2 & Hi2).
  exists w1, w2. split; [done|]. split; [done|].
  by rewrite Hi2, Hi1, <- app_assoc.
Qed.

(** A directory that has at least one entry is never loaded: the first
    recursive call raises [TypeError] and the stores are left as they
    were. *)
Theorem load_nonempty_directory (fuel : nat) (arango_client elastic_tuple : pyobj)
        (name : string) (entry : path) (entries : list path)
        (max_chunk_size : Z) (w : world) :
  startswith name "~$" = false ->
  load (S (S fuel)) arango_client elastic_tuple (Dir name (entry :: entries))
       max_chunk_size w
  = (w, Raise TypeError).
Proof. apply load_directory_raises. Qed.

(** An archive is never loaded: [_load_file] ends in an exception and
    nothing is inserted.  When the archive can be opened the exception is
    the [TypeError] of [extractall], which is given the
    [TemporaryDirectory] object where it expects a path. *)
Theorem load_archive (fuel : nat) (arango_client elastic_tuple : pyobj)
        (name : string) (max_chunk_size : Z) (w : world) :
  startswith name "~$" = false ->
  exists e,
    load (S fuel) arango_client elastic_tuple (File name ".zip")
         max_chunk_size w = (w, Raise e)
    /\ (open_zip (File name ".zip") = Ok () -> e = TypeError).
Proof. apply load_zip_raises. Qed.

End LoadEdge.

Lemma load_file_twice_witness :
  load parse_demo absolute_demo open_demo query_demo 5 ArangoClient
    ElasticTuple (File "a.txt" ".txt") 4096
    {| files := [(File "a.txt" ".txt", text_chunk_demo)];
       index := [(0%nat, (File "a.txt" ".txt", text_chunk_demo))];
       next_uuid := 1 |}
  = ({| files := [(File "a.txt" ".txt", text_chunk_demo)];
        index := [(0%nat, (File "a.txt" ".txt", text_chunk_demo))];
        next_uuid := 1 |}, Ok ()).
Proof.
  apply (load_file_twice parse_demo absolute_demo open_demo query_demo 5
           ElasticTuple "a.txt" ".txt" 4096 empty_world);
    [discriminate|reflexivity|reflexivity].
Defined.

Lemma load_file_twice_reindexes_witness :
  exists w1 w2,
    load parse_demo absolute_demo open_demo query_demo 1 NoneObj ElasticTuple
         (File "a.txt" ".txt") 4096 empty_world = (w1, Ok ())
    /\ load parse_demo absolute_demo open_demo query_demo 1 NoneObj
            ElasticTuple (File "a.txt" ".txt") 4096 w1 = (w2, Ok ())
    /\ map snd (index w2)
       = [(File "a.txt" ".txt", text_chunk_demo);
          (File "a.txt" ".txt", text_chunk_demo)].
Proof.
  apply (load_file_twice_reindexes parse_demo absolute_demo open_demo
           query_demo 0 NoneObj "a.txt" ".txt" ["text"] 4096 empty_world).
  - reflexivity.
  - reflexivity.
  - apply (bool_decide_unpack _). reflexivity.
  - reflexivity.
Defined.

Lemma load_nonempty_directory_witness :
  load parse_demo absolute_demo open_demo query_demo 2 ArangoClient
    ElasticTuple (Dir "docs" [File "a.txt" ".txt"; Dir "more" []]) 4096
    empty_world
  = (empty_world, Raise TypeError).
Proof.
  apply (load_nonempty_directory parse_demo absolute_demo open_demo
           query_demo 0 ArangoClient ElasticTuple "docs").
  reflexivity.
Defined.

Lemma load_archive_witness :
  exists e,
    load parse_demo absolute_demo open_demo query_demo 1 ArangoClient
      ElasticTuple (File "docs.zip" ".zip") 4096 empty_world
    = (empty_world, Raise e)
    /\ (open_demo (File "docs.zip" ".zip") = Ok () -> e = TypeError).
Proof.
  apply (load_archive parse_demo absolute_demo open_demo query_demo 0
           ArangoClient ElasticTuple "docs.zip" 4096 empty_world).
  reflexivity.
Defined.

End LoaderEdge.

Module LeidenSums.
Import Py Leiden.

Local Open Scope Q_scope.

Lemma Qsum_nil {A} (f : A -> Q) : Qsum f [] = 0.
Proof. reflexivity. Qed.

Lemma Qsum_cons {A} (f : A -> Q) x l : Qsum f (x :: l) = f x + Qsum f l.
Proof. reflexivity. Qed.

Lemma Qsum_app {A} (f : A -> Q) l1 l2 :
  Qsum f (l1 ++ l2) == Qsum f l1 + Qsum f l2.
Proof.
  induction l1 as [|x l1 IH]; cbn [app concat]; rewrite ?Qsum_cons, ?Qsum_nil; [ring|]. rewrite IH. ring.
Qed.

Lemma Qsum_ext {A} (f g : A -> Q) l :
  (forall x, x ∈ l -> f x == g x) -> Qsum f l == Qsum g l.
Proof.
  induction l as [|x l IH]; intros H; cbn [app concat]; rewrite ?Qsum_cons, ?Qsum_nil; [reflexivity|].
  rewrite (H x), IH; [reflexivity| |apply list_elem_of_here].
  intros y Hy. apply H. by apply list_elem_of_further.
Qed.

Lemma Qsum_add {A} (f g : A -> Q) l :
  Qsum (fun x => f x + g x) l == Qsum f l + Qsum g l.
Proof. induction l as [|x l IH]; cbn [app concat]; rewrite ?Qsum_cons, ?Qsum_nil; [ring|]. rewrite IH. ring. Qed.

Lemma Qsum_zero {A} (f : A -> Q) l :
  (forall x, x ∈ l -> f x == 0) -> Qsum f l == 0.
Proof.
  intros H. rewrite (Qsum_ext f (fun _ => 0)) by done.
  induction l; cbn [app concat]; rewrite ?Qsum_cons, ?Qsum_nil; [reflexivity|]. rewrite IHl; [ring|].
  intros y Hy. apply H. by apply list_elem_of_further.
Qed.

Lemma Qsum_nonneg {A} (f : A -> Q) l :
  (forall x, x ∈ l -> 0 <= f x) -> 0 <= Qsum f l.
Proof.
  induction l as [|x l IH]; intros H; cbn [app concat]; rewrite ?Qsum_cons, ?Qsum_nil; [apply Qle_refl|].
  assert (0 <= f x) by (apply H, list_elem_of_here).
  assert (0 <= Qsum f l)
    by (apply IH; intros y Hy; apply H; by apply list_elem_of_further).
  lra.
Qed.

Lemma Qsum_swap {A B} (h : A -> B -> Q) la lb :
  Qsum (fun x => Qsum (fun y => h x y) lb) la
  == Qsum (fun y => Qsum (fun x => h x y) la) lb.
Proof.
  induction la as [|x la IH]; cbn [app concat]; rewrite ?Qsum_cons, ?Qsum_nil.
  - symmetry. by apply Qsum_zero.
  - rewrite IH, <- Qsum_add. reflexivity.
Qed.

Lemma Qsum_perm {A} (f : A -> Q) l l' :
  l ≡ₚ l' -> Qsum f l == Qsum f l'.
Proof.
  induction 1 as [|x l l' _ IH|x y l|l1 l2 l3 _ IH1 _ IH2]; cbn [app concat]; rewrite ?Qsum_cons, ?Qsum_nil.
  - reflexivity.
  - by rewrite IH.
  - ring.
  - by rewrite IH1.
Qed.

Lemma Qsum_concat {A} (f : A -> Q) (ls : list (list A)) :
  Qsum f (concat ls) == Qsum (Qsum f) ls.
Proof.
  induction ls as [|l ls IH]; cbn [app concat]; rewrite ?Qsum_cons, ?Qsum_nil; [reflexivity|].
  by rewrite Qsum_app, IH.
Qed.

(** *** The order on nodes *)

Lemma tuple_compare_antisym u : forall v,
  tuple_compare u v = CompOpp (tuple_compare v u).
Proof.
  induction u as [|a u IH]; intros [|b v]; cbn; try done.
  rewrite (String.compare_antisym b a).
  destruct (String.compare a b); cbn; [apply IH|done|done].
Qed.

Lemma tuple_compare_eq u : forall v, tuple_compare u v = Eq -> u = v.
Proof.
  induction u as [|a u IH]; intros [|b v]; cbn; try done.
  destruct (String.compare a b) eqn:E; try done.
  apply String.compare_eq_iff in E as ->. intros H. f_equal. by apply IH.
Qed.

Lemma gt_irrefl v : gt v v = false.
Proof.
  unfold gt. pose proof (tuple_compare_antisym v v) as H.
  by destruct (tuple_compare v v).
Qed.

(** Of two different nodes exactly one is greater. *)
Lemma gt_total u v : u <> v -> gt u v = negb (gt v u).
Proof.
  intros Hne. unfold gt. rewrite (tuple_compare_antisym u v).
  destruct (tuple_compare v u) eqn:E; cbn; try done.
  by apply tuple_compare_eq in E.
Qed.

End LeidenSums.

Module LeidenGraphFacts.
Import Py Leiden LeidenSums.

Local Open Scope Q_scope.

(** The edge dictionary holds the same weight in both directions. *)
Definition symmetric (g : graph) : Prop :=
  forall u v, weight g u v == weight g v u.

(** On a symmetric graph the weight between two sets of nodes does not
    depend on the order in which they are given. *)
Theorem count_connecting_edges_sym (g : graph) (c1 c2 : community) :
  symmetric g ->
  count_connecting_edges g c1 c2 == count_connecting_edges g c2 c1.
Proof.
  intros Hsym. unfold count_connecting_edges. rewrite Qsum_swap.
  apply Qsum_ext. intros y _. apply Qsum_ext. intros x _. apply Hsym.
Qed.

(** On a symmetric graph without weight on loops,
    [count_connecting_edges_in] counts every edge inside a community once:
    it is half of what [count_connecting_edges] finds between the
    community and itself. *)
Theorem count_connecting_edges_in_half (g : graph) (c : community) :
  symmetric g ->
  (forall v, v ∈ c -> weight g v v == 0) ->
  count_connecting_edges g c c == 2 * count_connecting_edges_in g c.
Proof.
  intros Hsym Hloop. unfold count_connecting_edges, count_connecting_edges_in.
  set (up := fun x y : vertex => if gt x y then weight g x y else 0).
  assert (Hsplit : forall x y, x ∈ c -> weight g x y == up x y + up y x).
  { intros x y Hx. unfold up. destruct (decide (x = y)) as [<-|Hne].
    - rewrite gt_irrefl, Hloop by done. ring.
    - rewrite (gt_total x y Hne). destruct (gt y x); cbn; [|ring].
      rewrite (Hsym x y). ring. }
  rewrite (Qsum_ext _ (fun x => Qsum (up x) c + Qsum (fun y => up y x) c)).
  2:{ intros x Hx. rewrite <- Qsum_add. apply Qsum_ext. intros y _.
      by apply Hsplit. }
  rewrite Qsum_add, (Qsum_swap (fun x y => up y x)).
  unfold up. cbv beta. ring.
Qed.

(** Two vertices joined by one edge of weight 3, stored both ways. *)
Definition one_edge : graph :=
  {| vertices := [["a"]; ["b"]];
     edges := <[(["a"], ["b"]) := 3]> (<[(["b"], ["a"]) := 3]> ∅);
     edge_connections := {[ (["a"], ["b"]); (["b"], ["a"]) ]} |}.

Lemma one_edge_symmetric : symmetric one_edge.
Proof.
  intros u v. unfold weight, one_edge. cbn [edges].
  rewrite !lookup_insert, !lookup_empty.
  repeat case_decide; simplify_eq; reflexivity.
Qed.

Lemma one_edge_no_loops v : weight one_edge v v == 0.
Proof.
  unfold weight, one_edge. cbn [edges].
  rewrite !lookup_insert, !lookup_empty.
  repeat case_decide; simplify_eq; reflexivity.
Qed.

Lemma count_connecting_edges_sym_witness :
  count_connecting_edges one_edge [["a"]] [["b"]]
  == count_connecting_edges one_edge [["b"]] [["a"]].
Proof.
  apply (count_connecting_edges_sym one_edge [["a"]] [["b"]]).
  apply one_edge_symmetric.
Defined.

Lemma count_connecting_edges_in_half_witness :
  count_connecting_edges one_edge [["a"]; ["b"]] [["a"]; ["b"]]
  == 2 * count_connecting_edges_in one_edge [["a"]; ["b"]].
Proof.
  apply (count_connecting_edges_in_half one_edge [["a"]; ["b"]]).
  - apply one_edge_symmetric.
  - intros v _. apply one_edge_no_loops.
Defined.

End LeidenGraphFacts.

Module LeidenMoveFacts.
Import Py Leiden LeidenSums LeidenGraphFacts.

(** *** Lists of communities *)

Lemma concat_lookup {A} (p : list (list A)) i c :
  p !! i = Some c ->
  concat p = concat (take i p) ++ c ++ concat (drop (S i) p).
Proof.
  intros H. rewrite <- (take_drop_middle p i c H) at 1.
  by rewrite concat_app.
Qed.

Lemma concat_insert {A} (p : list (list A)) i c c' :
  p !! i = Some c ->
  concat (<[i := c']> p) = concat (take i p) ++ c' ++ concat (drop (S i) p).
Proof.
  intros H.
  rewrite insert_take_drop by (by eapply lookup_lt_Some).
  by rewrite concat_app.
Qed.

Lemma elem_of_concat_lookup {A} (p : list (list A)) i c v :
  p !! i = Some c -> v ∈ c -> v ∈ concat p.
Proof.
  intros H Hv. rewrite (concat_lookup p i c H).
  rewrite !elem_of_app. auto.
Qed.

Lemma concat_remove_first_empty (p : partition) :
  concat (remove_first_empty p) = concat p.
Proof.
  induction p as [|c p IH]; [done|]. cbn [remove_first_empty].
  destruct c; cbn [is_empty]; [done|]. cbn. by rewrite IH.
Qed.

(** In a partition, communities at different positions share no node. *)
Lemma partition_disjoint {A} (p : list (list A)) i j ci cj v :
  NoDup (concat p) -> p !! i = Some ci -> p !! j = Some cj -> i <> j ->
  v ∈ ci -> v ∉ cj.
Proof.
  intros Hnd Hi Hj Hij Hvi Hvj.
  rewrite (concat_lookup p i ci Hi) in Hnd.
  apply NoDup_app in Hnd as (_ & Hpre & Hnd).
  apply NoDup_app in Hnd as (_ & Hpost & _).
  destruct (decide (j < i)%nat) as [Hlt|Hge].
  - apply (Hpre v); [|apply elem_of_app; by left].
    apply (elem_of_concat_lookup (take i p) j cj); [|done].
    by rewrite lookup_take_lt.
  - apply (Hpost v Hvi).
    apply (elem_of_concat_lookup (drop (S i) p) (j - S i) cj); [|done].
    rewrite lookup_drop. rewrite <- Hj. f_equal. lia.
Qed.

Lemma partition_community_NoDup {A} (p : list (list A)) i c :
  NoDup (concat p) -> p !! i = Some c -> NoDup c.
Proof.
  intros Hnd Hi. rewrite (concat_lookup p i c Hi) in Hnd.
  apply NoDup_app in Hnd as (_ & _ & Hnd). by apply NoDup_app in Hnd as (? & _).
Qed.

(** *** Sets *)

Lemma set_remove_not_in v c : v ∉ set_remove v c.
Proof. unfold set_remove, community. rewrite list_elem_of_filter. naive_solver. Qed.

Lemma set_remove_absent v c : v ∉ c -> set_remove v c = c.
Proof.
  unfold set_remove, community. induction c as [|x c IH]; intros Hv; [done|].
  apply not_elem_of_cons in Hv as [Hne Hv].
  rewrite filter_cons_True by done. by rewrite IH.
Qed.

Lemma set_remove_perm v c :
  NoDup c -> v ∈ c -> c ≡ₚ v :: set_remove v c.
Proof.
  induction c as [|x c IH]; intros Hnd Hv.
  - by apply not_elem_of_nil in Hv.
  - apply NoDup_cons in Hnd as [Hx Hnd].
    destruct (decide (x = v)) as [->|Hne].
    + replace (set_remove v (v :: c)) with (set_remove v c)
        by (unfold set_remove, community;
            by rewrite (filter_cons_False _ v) by naive_solver).
      by rewrite set_remove_absent.
    + replace (set_remove v (x :: c)) with (x :: set_remove v c)
        by (unfold set_remove, community; by rewrite filter_cons_True).
      apply elem_of_cons in Hv as [->|Hv]; [done|].
      rewrite (IH Hnd Hv) at 1. apply perm_swap.
Qed.

Lemma set_add_fresh v c : v ∉ c -> set_add v c = c ++ [v].
Proof. intros H. unfold set_add. by rewrite bool_decide_eq_false_2. Qed.

Lemma set_diff_single v c : set_diff c [v] = set_remove v c.
Proof.
  unfold set_diff, set_remove, community. apply list_filter_iff.
  intros x. by rewrite list_elem_of_singleton.
Qed.

(** *** The move keeps the partition a partition *)

(** [apply_move] changes no node's number of occurrences: when every
    node is in exactly one community before the move, so it is after
    it. *)
Theorem apply_move_cover (p : partition) (node : vertex) (i : nat)
        (node_community : community) (t : target) :
  NoDup (concat p) ->
  p !! i = Some node_community ->
  node ∈ node_community ->
  concat (apply_move p node i t) ≡ₚ concat p.
Proof.
  intros Hnd Hi Hv.
  pose proof (partition_community_NoDup p i _ Hnd Hi) as Hc.
  assert (Hlen : (i < length p)%nat) by (by eapply lookup_lt_Some).
  unfold apply_move. unfold partition, community in *.
  rewrite Hi. cbn [default]. unfold id.
  pose proof (set_remove_perm node node_community Hc Hv) as Hsmall.
  pose proof (set_remove_not_in node node_community) as Hgone.
  revert Hsmall Hgone.
  generalize (set_remove node node_community : list vertex).
  intros small Hsmall Hgone.
  set (p1 := <[i := small]> p).
  assert (Hp1 : node :: concat p1 ≡ₚ concat p).
  { unfold p1. rewrite (concat_lookup p i _ Hi), (concat_insert p i _ small Hi).
    rewrite Hsmall. apply Permutation_middle. }
  assert (Hfresh :
            concat ((if is_empty small then remove_first_empty p1 else p1)
                    ++ [[node]]) ≡ₚ concat p).
  { rewrite concat_app. cbn [concat]. rewrite app_nil_r.
    rewrite <- Hp1, <- Permutation_cons_append.
    destruct (is_empty small); by rewrite ?concat_remove_first_empty. }
  destruct t as [|j]; [exact Hfresh|].
  destruct (p1 !! j) as [max_community|] eqn:Hj; cbn [default];
    [|exact Hfresh].
  destruct (is_empty max_community) eqn:Hne; [exact Hfresh|].
  assert (Hnotin : node ∉ max_community).
  { unfold p1 in Hj. destruct (decide (i = j)) as [<-|Hij].
    - rewrite list_lookup_insert_eq in Hj by done. by injection Hj as <-.
    - rewrite list_lookup_insert_ne in Hj by done.
      by apply (partition_disjoint p i j node_community max_community). }
  rewrite set_add_fresh by done.
  assert (E : concat (<[j := max_community ++ [node]]> p1) ≡ₚ node :: concat p1).
  { rewrite (concat_insert p1 j _ _ Hj), (concat_lookup p1 j _ Hj).
    rewrite <- !app_assoc. cbn [app].
    by rewrite <- Permutation_middle, <- (Permutation_middle (concat _)). }
  rewrite <- Hp1.
  destruct (is_empty small); rewrite ?concat_remove_first_empty; exact E.
Qed.

(** *** The objective, community by community *)

Local Open Scope Q_scope.

(** The share of one community in [constant_potts_model]. *)
Definition community_score (g : graph) (gamma : Q) (c : community) : Q :=
  count_connecting_edges_in g c - gamma * inject_Z (comb2 (get_len c)).

Lemma comb2_Q m : inject_Z (comb2 m) == (1 # 2) * Qnat m * (Qnat m - 1).
Proof.
  unfold comb2, Qnat. set (z := Z.of_nat m).
  assert (Hev : exists k, (z * (z - 1) = k * 2)%Z).
  { destruct (Z.Even_or_Odd z) as [[k Hk]|[k Hk]].
    - exists (k * (z - 1))%Z. lia.
    - exists (z * k)%Z. lia. }
  destruct Hev as [k Hev]. rewrite Hev, Z.div_mul by done.
  assert (Hk : inject_Z (k * 2) == inject_Z z * (inject_Z z - 1)).
  { rewrite <- Hev. unfold Qeq. cbn. lia. }
  rewrite inject_Z_mult in Hk. change (inject_Z 2) with 2 in Hk. lra.
Qed.

Lemma Qnat_add a b : Qnat (a + b) == Qnat a + Qnat b.
Proof. unfold Qnat. by rewrite Nat2Z.inj_add, inject_Z_plus. Qed.

Lemma comb_delta_spec c n :
  inject_Z (comb2 (n + c)) - inject_Z (comb2 c)
  == - comb_delta (Qnat c) (Qnat n).
Proof.
  rewrite !comb2_Q, Qnat_add. unfold comb_delta. ring.
Qed.

Lemma get_len_cons v c : get_len (v :: c) = (node_len v + get_len c)%nat.
Proof. unfold get_len, flatten, node_len. cbn [concat]. by rewrite length_app. Qed.

Lemma get_len_perm c c' : c ≡ₚ c' -> get_len c = get_len c'.
Proof.
  induction 1; rewrite ?get_len_cons; try done; lia.
Qed.

Lemma count_connecting_edges_in_perm g c c' :
  c ≡ₚ c' -> count_connecting_edges_in g c == count_connecting_edges_in g c'.
Proof.
  intros H. unfold count_connecting_edges_in.
  rewrite (Qsum_perm _ c c' H). apply Qsum_ext. intros x _.
  by apply Qsum_perm.
Qed.

Lemma count_connecting_edges_perm g c c' d :
  c ≡ₚ c' -> count_connecting_edges g c d == count_connecting_edges g c' d.
Proof. intros H. unfold count_connecting_edges. by apply Qsum_perm. Qed.

Lemma community_score_perm g gamma c c' :
  c ≡ₚ c' -> community_score g gamma c == community_score g gamma c'.
Proof.
  intros H. unfold community_score.
  by rewrite (count_connecting_edges_in_perm g c c' H), (get_len_perm c c' H).
Qed.

Lemma community_score_nil g gamma : community_score g gamma [] == 0.
Proof.
  unfold community_score, count_connecting_edges_in. rewrite Qsum_nil.
  change (inject_Z (comb2 (get_len []))) with 0. ring.
Qed.

(** Adding a node to a community adds the weight of the edges between
    the two to the weight inside. *)
Lemma count_connecting_edges_in_cons g v c :
  symmetric g -> v ∉ c ->
  count_connecting_edges_in g (v :: c)
  == count_connecting_edges_in g c + count_connecting_edges g c [v].
Proof.
  intros Hsym Hv. unfold count_connecting_edges_in, count_connecting_edges.
  set (up := fun x y : vertex => if gt x y then weight g x y else 0).
  change (Qsum (fun x => Qsum (up x) (v :: c)) (v :: c)
          == Qsum (fun x => Qsum (up x) c) c
             + Qsum (fun x => Qsum (fun y => weight g x y) [v]) c).
  rewrite !Qsum_cons.
  rewrite (Qsum_ext (fun x => Qsum (up x) (v :: c))
                    (fun x => up x v + Qsum (up x) c) c)
    by (intros x _; by rewrite Qsum_cons).
  rewrite Qsum_add.
  rewrite (Qsum_ext (fun x => Qsum (fun y => weight g x y) [v])
                    (fun x => up v x + up x v) c).
  2:{ intros x Hx. rewrite Qsum_cons, Qsum_nil. unfold up.
      assert (x <> v) as Hne by (intros ->; done).
      rewrite (gt_total x v Hne). destruct (gt v x); cbn; [|ring].
      rewrite (Hsym x v). ring. }
  rewrite Qsum_add. unfold up at 1. rewrite gt_irrefl. ring.
Qed.

Lemma community_score_cons g gamma v c :
  symmetric g -> v ∉ c ->
  community_score g gamma (v :: c)
  == community_score g gamma c + count_connecting_edges g c [v]
     + gamma * comb_delta (Qnat (get_len c)) (Qnat (node_len v)).
Proof.
  intros Hsym Hv. unfold community_score.
  rewrite count_connecting_edges_in_cons, get_len_cons by done.
  pose proof (comb_delta_spec (get_len c) (node_len v)) as H.
  set (a := inject_Z (comb2 (node_len v + get_len c))) in *.
  set (b := inject_Z (comb2 (get_len c))) in *.
  set (d := comb_delta _ _) in *.
  assert (a == b - d) as -> by lra. ring.
Qed.

Lemma Qsum_insert {A} (f : A -> Q) (l : list A) i x y :
  l !! i = Some x -> Qsum f (<[i := y]> l) == Qsum f l - f x + f y.
Proof.
  intros H. rewrite insert_take_drop by (by eapply lookup_lt_Some).
  rewrite <- (take_drop_middle l i x H) at 3.
  rewrite !Qsum_app, !Qsum_cons. ring.
Qed.

Lemma Qsum_remove_first_empty g gamma (p : partition) :
  Qsum (community_score g gamma) (remove_first_empty p)
  == Qsum (community_score g gamma) p.
Proof.
  induction p as [|c p IH]; [reflexivity|]. cbn [remove_first_empty].
  destruct c; cbn [is_empty].
  - rewrite Qsum_cons, community_score_nil. ring.
  - rewrite !Qsum_cons, IH. reflexivity.
Qed.

(** *** The optimised difference is the difference of the objective *)

(** On a symmetric graph, for a partition in which every node is in one
    community, [delta_potts_model] for a node of [p[i]] and the target
    [t] is what [constant_potts_model] gains by the move [apply_move]
    makes. *)
Theorem delta_potts_model_exact (g : graph) (p : partition) (gamma : Q)
        (node : vertex) (i : nat) (node_community : community) (t : target) :
  symmetric g ->
  NoDup (concat p) ->
  p !! i = Some node_community ->
  node ∈ node_community ->
  constant_potts_model g (apply_move p node i t) gamma
  - constant_potts_model g p gamma
  == delta_potts_model g p gamma node node_community (target_set p t).
Proof.
  intros Hsym Hnd Hi Hv.
  pose proof (partition_community_NoDup p i _ Hnd Hi) as Hc.
  assert (Hlen : (i < length p)%nat) by (by eapply lookup_lt_Some).
  unfold constant_potts_model.
  fold (community_score g gamma).
  unfold delta_potts_model, apply_move. rewrite set_diff_single.
  unfold partition, community in *.
  rewrite Hi. cbn [default]. unfold id.
  pose proof (set_remove_perm node node_community Hc Hv) as Hsmall.
  pose proof (set_remove_not_in node node_community) as Hgone.
  revert Hsmall Hgone.
  generalize (set_remove node node_community : list vertex).
  intros small Hsmall Hgone.
  set (score := community_score g gamma).
  set (n := Qnat (node_len node)).
  set (D := count_connecting_edges g small [node]
            + gamma * comb_delta (Qnat (get_len small)) n).
  assert (HA : score node_community == score small + D).
  { unfold score, D, n.
    rewrite (community_score_perm g gamma _ _ Hsmall).
    rewrite community_score_cons by done. ring. }
  set (p1 := <[i := small]> p).
  assert (HB : Qsum score p1 == Qsum score p - D).
  { unfold p1. rewrite (Qsum_insert score p i _ small Hi), HA. ring. }
  assert (HC : forall q : list (list vertex),
             Qsum score (if is_empty small then remove_first_empty q else q)
             == Qsum score q).
  { intros q. destruct (is_empty small); [|reflexivity].
    apply Qsum_remove_first_empty. }
  assert (Hone : score [node] == gamma * comb_delta (Qnat (get_len [])) n).
  { unfold score, n. rewrite community_score_cons by (done || apply not_elem_of_nil).
    rewrite community_score_nil. unfold count_connecting_edges.
    rewrite Qsum_nil. ring. }
  assert (Hfresh :
            Qsum score ((if is_empty small then remove_first_empty p1 else p1)
                        ++ [[node]]) - Qsum score p
            == count_connecting_edges g [] [node]
               - count_connecting_edges g small [node]
               + gamma * (comb_delta (Qnat (get_len [])) n
                          - comb_delta (Qnat (get_len small)) n)).
  { rewrite Qsum_app, HC, HB, Qsum_cons, Qsum_nil, Hone.
    unfold D, count_connecting_edges. rewrite Qsum_nil. ring. }
  assert (Hadd : forall c : list vertex,
             node ∉ c ->
             score (set_add node c)
             == score c + count_connecting_edges g c [node]
                + gamma * comb_delta (Qnat (get_len c)) n).
  { intros c Hc'. rewrite set_add_fresh by done. unfold score, n.
    rewrite (community_score_perm g gamma (c ++ [node]) (node :: c))
      by (by rewrite <- Permutation_cons_append).
    by apply community_score_cons. }
  destruct t as [|j]; cbn [target_set]; unfold partition, community in *.
  { rewrite bool_decide_eq_false_2 by apply not_elem_of_nil. exact Hfresh. }
  destruct (decide (i = j)) as [<-|Hij].
  - rewrite Hi. cbn [default]. unfold id.
    rewrite bool_decide_eq_true_2 by done.
    assert (Hp1 : p1 !! i = Some small)
      by (unfold p1; by rewrite list_lookup_insert_eq).
    rewrite !Hp1. cbn [default]. unfold id.
    destruct (is_empty small) eqn:Hempty.
    + destruct small; [|done]. rewrite Hfresh. ring.
    + rewrite (Qsum_insert score p1 i small _ Hp1).
      rewrite HB, Hadd by done. unfold D. ring.
  - assert (Hp1 : p1 !! j = p !! j)
      by (unfold p1; by rewrite list_lookup_insert_ne).
    rewrite !Hp1.
    destruct (p !! j) as [max_community|] eqn:Hj; cbn [default]; unfold id.
    2:{ rewrite bool_decide_eq_false_2 by apply not_elem_of_nil.
        exact Hfresh. }
    assert (Hnotin : node ∉ max_community)
      by (by apply (partition_disjoint p i j node_community max_community)).
    rewrite bool_decide_eq_false_2 by done.
    destruct (is_empty max_community) eqn:Hempty.
    + destruct max_community; [|done]. exact Hfresh.
    + rewrite HC.
      rewrite (Qsum_insert score p1 j max_community _ Hp1).
      rewrite HB, Hadd by done. unfold D. ring.
Qed.

(** *** The choice of the target *)

Lemma Qltb_true x y : Qltb x y = true -> x < y.
Proof.
  unfold Qltb. rewrite negb_true_iff, <- not_true_iff_false, Qle_bool_iff.
  apply Qnot_le_lt.
Qed.

Lemma Qltb_false x y : Qltb x y = false -> y <= x.
Proof. unfold Qltb. rewrite negb_false_iff. apply Qle_bool_iff. Qed.

(** What is known of the best target so far once the communities before
    position [j] have been tried: its value is the greatest, it is
    positive, and it belongs to the first candidate that reaches it. *)
Definition best_so_far (g : graph) (p : partition) (gamma : Q)
           (node : vertex) (node_community : community)
           (j : nat) (best : option target * Q) : Prop :=
  let delta := delta_potts_model g p gamma node node_community in
  (delta [] <= snd best) /\
  (forall k c, (k < j)%nat -> p !! k = Some c -> delta c <= snd best) /\
  match fst best with
  | None => snd best = 0
  | Some t =>
      0 < snd best /\ snd best = delta (target_set p t) /\
      match t with
      | Fresh => True
      | Member i =>
          delta [] < snd best /\
          forall k c, (k < i)%nat -> p !! k = Some c -> delta c < snd best
      end
  end.

Lemma best_so_far_nonneg g p gamma node node_community j best :
  best_so_far g p gamma node node_community j best -> 0 <= snd best.
Proof.
  intros (_ & _ & H). destruct (fst best).
  - apply Qlt_le_weak, H.
  - rewrite H. apply Qle_refl.
Qed.

Lemma scan_communities_best g p gamma node node_community rest :
  forall j best,
    drop j p = rest ->
    best_so_far g p gamma node node_community j best ->
    best_so_far g p gamma node node_community (length p)
      (scan_communities g p gamma node node_community j rest best).
Proof.
  induction rest as [|c rest IH]; intros j best Hdrop Hbest.
  - cbn [scan_communities].
    assert (length p <= j)%nat as Hj.
    { apply (f_equal length) in Hdrop. rewrite length_drop in Hdrop.
      cbn in Hdrop. lia. }
    destruct Hbest as (H0 & Hall & Hsome). split; [done|]. split; [|done].
    intros k c' Hk. apply Hall. lia.
  - cbn [scan_communities].
    assert (Hc : p !! j = Some c).
    { rewrite <- (Nat.add_0_r j), <- lookup_drop, Hdrop. done. }
    assert (Hrest : drop (S j) p = rest).
    { rewrite (drop_S p c j Hc) in Hdrop. by injection Hdrop. }
    apply IH; [done|].
    pose proof (best_so_far_nonneg _ _ _ _ _ _ _ Hbest) as Hnn.
    destruct Hbest as (H0 & Hall & Hsome).
    unfold best_so_far. unfold partition, community in *.
    set (potts_value := delta_potts_model g p gamma node node_community c).
    destruct (Qltb (snd best) potts_value) eqn:Hlt.
    + apply Qltb_true in Hlt. cbn [fst snd].
      fold potts_value. split; [lra|]. split.
      * intros k c' Hk Hc'. destruct (decide (k = j)) as [->|Hne].
        -- rewrite Hc in Hc'. injection Hc' as <-. apply Qle_refl.
        -- specialize (Hall k c' ltac:(lia) Hc'). lra.
      * split; [lra|]. split.
        { cbn [target_set]. unfold partition, community in *.
          by rewrite Hc. }
        split; [lra|]. intros k c' Hk Hc'.
        specialize (Hall k c' Hk Hc'). lra.
    + apply Qltb_false in Hlt. split; [exact H0|]. split; [|exact Hsome].
      intros k c' Hk Hc'. destruct (decide (k = j)) as [->|Hne].
      * rewrite Hc in Hc'. injection Hc' as <-. exact Hlt.
      * apply (Hall k c'); [lia|done].
Qed.

(** [best_move] tries the fresh community and then the communities of
    the partition in order.  Its value is the greatest increase
    [delta_potts_model] promises among them if that is positive, and then
    the target is the first candidate with this increase; it is 0 with no
    target when no candidate promises an increase. *)
Theorem best_move_first_maximum (g : graph) (p : partition) (gamma : Q)
        (node : vertex) (node_community : community) :
  let delta := delta_potts_model g p gamma node node_community in
  let best := best_move g p gamma node node_community in
  (delta [] <= snd best) /\
  (forall c, c ∈ p -> delta c <= snd best) /\
  match fst best with
  | None => snd best = 0
  | Some t =>
      0 < snd best /\ snd best = delta (target_set p t) /\
      match t with
      | Fresh => True
      | Member i =>
          delta [] < snd best /\
          forall k c, (k < i)%nat -> p !! k = Some c -> delta c < snd best
      end
  end.
Proof.
  intros delta best.
  assert (H : best_so_far g p gamma node node_community (length p) best).
  { unfold best, best_move. apply scan_communities_best; [done|].
    fold delta. destruct (Qltb 0 (delta [])) eqn:Hlt.
    - apply Qltb_true in Hlt. unfold best_so_far. cbn [fst snd target_set].
      fold delta. repeat split; try done; try apply Qle_refl.
      intros k c Hk. lia.
    - apply Qltb_false in Hlt. unfold best_so_far. cbn [fst snd].
      fold delta. repeat split; try done. intros k c Hk. lia. }
  destruct H as (H0 & Hall & Hsome). split; [done|]. split; [|done].
  intros c Hc. apply list_elem_of_lookup in Hc as [k Hk].
  apply (Hall k c); [|done]. by eapply lookup_lt_Some.
Qed.

(** *** The local move never lowers the objective *)

Lemma get_community_of_node_Some (p : partition) node i :
  get_community_of_node p node = Some i ->
  exists c, p !! i = Some c /\ node ∈ c.
Proof.
  unfold get_community_of_node. intros H.
  apply fmap_Some in H as ([i' c] & Hfind & ->).
  apply list_find_Some in Hfind as (Hc & Hin & _). by exists c.
Qed.

(** One visit of [move_nodes] on a symmetric graph: every node stays in
    exactly one community, and the partition is either left as it is or
    replaced by one with a greater [constant_potts_model]. *)
Theorem visit_improves (g : graph) (gamma : Q) (node : vertex)
        (p p' : partition) (next_queue next_queue' : list vertex) :
  symmetric g ->
  NoDup (concat p) ->
  visit g gamma node p next_queue = Some (p', next_queue') ->
  concat p' ≡ₚ concat p /\
  (p' = p \/
   constant_potts_model g p gamma < constant_potts_model g p' gamma).
Proof.
  intros Hsym Hnd. unfold visit.
  pose proof (best_move_first_maximum g p gamma node
                (community_at p (get_community_of_node p node))) as Hbest.
  cbv zeta in Hbest. destruct Hbest as (_ & _ & Hbest).
  destruct (best_move g p gamma node
              (community_at p (get_community_of_node p node)))
    as [[t|] m]; cbn [fst snd] in Hbest.
  2:{ intros [= <- <-]. by split; [|left]. }
  destruct (Qltb 0 m); [|intros [= <- <-]; by split; [|left]].
  destruct (get_community_of_node p node) as [i|] eqn:Hi; [|done].
  cbn [mbind option_bind]. intros [= <- <-].
  apply get_community_of_node_Some in Hi as (c & Hc & Hin).
  cbn [community_at] in Hbest. unfold partition, community in *.
  rewrite Hc in Hbest. cbn [default] in Hbest. unfold id in Hbest.
  destruct Hbest as (Hpos & Hm & _). split.
  - by apply (apply_move_cover p node i c t).
  - right.
    pose proof (delta_potts_model_exact g p gamma node i c t Hsym Hnd Hc Hin)
      as Hdelta.
    rewrite <- Hm in Hdelta. lra.
Qed.

Section MoveNodes.

Variable rng : Type.
Variable shuffle : rng -> list vertex -> list vertex * rng.

Lemma move_nodes_loop_improves (g : graph) (gamma : Q) (fuel : nat) :
  symmetric g ->
  forall node_queue next_queue p r p' r',
    NoDup (concat p) ->
    move_nodes_loop rng shuffle fuel g gamma node_queue next_queue p r
    = Some (p', r') ->
    concat p' ≡ₚ concat p /\
    constant_potts_model g p gamma <= constant_potts_model g p' gamma.
Proof.
  intros Hsym. induction fuel as [|fuel IH]; [done|].
  intros node_queue next_queue p r p' r' Hnd. cbn [move_nodes_loop].
  destruct (pop node_queue) as [[node node_queue']|].
  - destruct (visit g gamma node p next_queue) as [[p1 next1]|] eqn:Hvisit;
      [|done].
    cbn [mbind option_bind]. intros Hloop.
    destruct (visit_improves _ _ _ _ _ _ _ Hsym Hnd Hvisit) as [Hcover Hup].
    apply IH in Hloop as [Hcover' Hup']; [|by rewrite Hcover].
    split; [by rewrite Hcover'|].
    destruct Hup as [->|Hup]; [done|]. lra.
  - destruct (is_empty next_queue).
    + intros [= <- <-]. split; [done|]. apply Qle_refl.
    + destruct (shuffle r next_queue) as [node_queue' r1]. by apply IH.
Qed.

(** [move_nodes] on a symmetric graph, started on a partition in which
    every node is in exactly one community, returns such a partition of
    the same nodes, and [constant_potts_model] is not lower for it. *)
Theorem move_nodes_improves (g : graph) (gamma : Q) (fuel : nat)
        (p p' : partition) (r r' : rng) :
  symmetric g ->
  NoDup (concat p) ->
  move_nodes rng shuffle fuel g p gamma r = Some (p', r') ->
  concat p' ≡ₚ concat p /\
  constant_potts_model g p gamma <= constant_potts_model g p' gamma.
Proof.
  intros Hsym Hnd. unfold move_nodes.
  destruct (shuffle r (vertices g)) as [node_queue r1].
  by apply move_nodes_loop_improves.
Qed.

End MoveNodes.

(** *** The moves on the graph of one edge *)

Definition two_singletons : partition := [[["a"]]; [["b"]]].

Lemma two_singletons_NoDup : NoDup (concat two_singletons).
Proof. apply (bool_decide_unpack _). by vm_compute. Qed.

(** [random.shuffle] replaced by the identity. *)
Definition no_shuffle (r : unit) (l : list vertex) : list vertex * unit :=
  (l, r).

Lemma apply_move_cover_witness :
  concat (apply_move two_singletons ["a"] 0 (Member 1%nat))
  ≡ₚ concat two_singletons.
Proof.
  apply (apply_move_cover two_singletons ["a"] 0 [["a"]] (Member 1%nat)).
  - apply two_singletons_NoDup.
  - reflexivity.
  - apply list_elem_of_here.
Defined.

Lemma delta_potts_model_exact_witness :
  constant_potts_model one_edge
    (apply_move two_singletons ["a"] 0 (Member 1%nat)) (1 # 5)
  - constant_potts_model one_edge two_singletons (1 # 5)
  == delta_potts_model one_edge two_singletons (1 # 5) ["a"] [["a"]]
       (target_set two_singletons (Member 1%nat)).
Proof.
  apply (delta_potts_model_exact one_edge two_singletons (1 # 5) ["a"] 0
           [["a"]] (Member 1%nat)).
  - apply one_edge_symmetric.
  - apply two_singletons_NoDup.
  - reflexivity.
  - apply list_elem_of_here.
Defined.

Lemma visit_improves_witness :
  concat [[["b"]; ["a"]]] ≡ₚ concat two_singletons /\
  ([[["b"]; ["a"]]] = two_singletons \/
   constant_potts_model one_edge two_singletons (1 # 5)
   < constant_potts_model one_edge [[["b"]; ["a"]]] (1 # 5)).
Proof.
  apply (visit_improves one_edge (1 # 5) ["a"] two_singletons
           [[["b"]; ["a"]]] [] []).
  - apply one_edge_symmetric.
  - apply two_singletons_NoDup.
  - by vm_compute.
Defined.

Lemma move_nodes_improves_witness :
  concat [[["a"]; ["b"]]] ≡ₚ concat two_singletons /\
  constant_potts_model one_edge two_singletons (1 # 5)
  <= constant_potts_model one_edge [[["a"]; ["b"]]] (1 # 5).
Proof.
  apply (move_nodes_improves unit no_shuffle one_edge (1 # 5) 10
           two_singletons [[["a"]; ["b"]]] tt tt).
  - apply one_edge_symmetric.
  - apply two_singletons_NoDup.
  - by vm_compute.
Defined.

End LeidenMoveFacts.

Module LeidenDeltaFacts.
Import Py Leiden LeidenSums LeidenGraphFacts LeidenMoveFacts.

Local Open Scope Q_scope.







End LeidenDeltaFacts.
